(** * Whale-trade ingestion and deduplication pipeline

    A shallow embedding of the [useWhaleActivity] hook (trade classifier,
    accumulator store, refresh cycle, pagination cycle) and of the toast
    handlers of [App.tsx] that consume it.

    Conventions of the embedding:
    - a JavaScript [number] that carries a quantity ([size], [price],
      [value], [minValue]) is an IEEE 754 binary64 value, [PrimFloat.float];
      products and comparisons are the hardware ones, NaN included;
    - [timestamp] (an epoch count), the offset cursor and the counters are
      integers: [Z] and [nat];
    - [undefined] and [null] are both [None];
    - a [Map] is an association list in insertion order with unique keys,
      which is the order its [values()] iterator yields;
    - an [async] function is cut at its [await]s: the environment supplies
      what the awaited promise settles to. *)

From Stdlib Require Import ZArith List String Ascii Bool Lia.
From Stdlib Require Import Sorted Permutation DecimalString.
From Stdlib Require Import PrimFloat FloatOps SpecFloat.
Import ListNotations.

Set Implicit Arguments.

(** ** JavaScript idioms used by the hook *)

Module JS.

(** [a || d] where [a] is a string that may be missing: the empty string
    and [undefined] are both falsy. *)
Definition or_default (a : option string) (d : string) : string :=
  match a with
  | Some s => if (s =? "")%string then d else s
  | None => d
  end.

(** [a || b || null] on two optional strings. *)
Definition or_null (a b : option string) : option string :=
  match a with
  | Some s => if (s =? "")%string
              then match b with
                   | Some s' => if (s' =? "")%string then None else Some s'
                   | None => None
                   end
              else Some s
  | None => match b with
            | Some s' => if (s' =? "")%string then None else Some s'
            | None => None
            end
  end.

(** A promise that has settled. *)
Inductive Settled (A : Type) : Type :=
| Resolved (a : A)
| Rejected (reason : string).
Arguments Resolved {A} a.
Arguments Rejected {A} reason.

(** [Map<string, V>]: entries in insertion order, keys unique. *)
Section Map.
Variable V : Type.

Definition Map := list (string * V).

Fixpoint has (k : string) (m : Map) : bool :=
  match m with
  | [] => false
  | (k', _) :: m' => if (k' =? k)%string then true else has k m'
  end.

Fixpoint get (k : string) (m : Map) : option V :=
  match m with
  | [] => None
  | (k', v) :: m' => if (k' =? k)%string then Some v else get k m'
  end.

(** [set] overwrites the value of a key in place and appends a new key. *)
Fixpoint set (k : string) (v : V) (m : Map) : Map :=
  match m with
  | [] => [(k, v)]
  | (k', v') :: m' =>
      if (k' =? k)%string then (k', v) :: m' else (k', v') :: set k v m'
  end.

Definition values (m : Map) : list V := map snd m.

Definition size (m : Map) : nat := List.length m.
End Map.

(** [Array.prototype.sort(cmp)]: [a] ends up before [b] when [cmp a b] is
    negative, after it when positive, and the sort is stable (elements
    that compare equal keep their order).  A stable insertion sort. *)
Section Sort.
Variable A : Type.
Variable cmp : A -> A -> Z.

Fixpoint insert (x : A) (l : list A) : list A :=
  match l with
  | [] => [x]
  | y :: l' => if (cmp x y <=? 0)%Z then x :: l else y :: insert x l'
  end.

Definition sort (l : list A) : list A := fold_right insert [] l.
End Sort.

End JS.

Import JS.

(** ** Data model *)

Inductive Side : Type := BUY | SELL.

Module Trade.
(** [TradeSchema] of [lib/api], the element type of what
    [fetchRecentTrades] returns, with the fields the hook and
    [extractUniqueTraders] read.  A field the schema marks [optional()] or
    [nullable()] is an option.  [timestamp], a number of the schema, is
    taken as an integral epoch count. *)
Record t : Type := mk {
  proxyWallet : string;
  side : Side;
  size : float;
  price : float;
  conditionId : string;
  title : option string;
  outcome : option string;
  timestamp : Z;
  name : option string;
  pseudonym : option string;
  transactionHash : option string
}.
End Trade.

Module Alert.
(** [interface WhaleAlert]. *)
Record t : Type := mk {
  id : string;
  trader : string;
  traderName : option string;
  side : Side;
  size : float;
  price : float;
  value : float;
  market : string;
  outcome : string;
  timestamp : Z;
  transactionHash : option string
}.
End Alert.

Definition RawTrade : Type := Trade.t.
Definition WhaleAlert : Type := Alert.t.

(** What [await fetchRecentTrades(limit, offset)] settles to: a page, or a
    transport or schema failure. *)
Definition FetchResult : Type := Settled (list RawTrade).

(** [const whaleStore = { alerts: new Map(), oldestOffset: 0 }]. *)
Record WhaleStore : Type := mkStore {
  alerts : Map WhaleAlert;
  oldestOffset : Z
}.

Definition whaleStore : WhaleStore :=
  {| alerts := []; oldestOffset := 0 |}.

(** [useQuery] result fields the hook reads: the data of the last successful
    run of the query function, and the error of the last failed one. *)
Record QueryData : Type := mkData {
  data_alerts : list WhaleAlert;
  newCount : nat;
  updatedAt : Z
}.

Record QueryResult : Type := mkQuery {
  data : option QueryData;
  error : option string
}.

(** Toasts of [App.tsx]: one entry per call of [showToast]. *)
Inductive ToastType : Type := success | info | warning.

Record Toast : Type := mkToast {
  message : string;
  type : ToastType
}.

(** A count inside a template literal: counts are small naturals, which
    JavaScript prints in plain decimal. *)
Definition countToString (n : nat) : string :=
  NilZero.string_of_uint (Nat.to_uint n).

(** [Number::toString] as the template literal of the synthesized identifier
    applies it to [trade.timestamp] and to [trade.size].  It is an interface
    of the development: every result holds whatever the two functions
    print. *)
Class NumberToString : Type := {
  timestampToString : Z -> string;
  sizeToString : float -> string
}.

Section WhaleActivity.

Context {printer : NumberToString}.

(** ** Trade classifier *)

(** [`${proxyWallet}-${timestamp}-${conditionId}-${size}`]. *)
Definition synthesizedId (trade : RawTrade) : string :=
  (Trade.proxyWallet trade ++ "-" ++
   timestampToString (Trade.timestamp trade) ++ "-" ++
   Trade.conditionId trade ++ "-" ++
   sizeToString (Trade.size trade))%string.

Definition tradeToWhaleAlert (trade : RawTrade) (minValue : float)
  : option WhaleAlert :=
  let value := (Trade.size trade * Trade.price trade)%float in
  if (value <? minValue)%float then None
  else
    let id := or_default (Trade.transactionHash trade) (synthesizedId trade) in
    Some {| Alert.id := id;
            Alert.trader := Trade.proxyWallet trade;
            Alert.traderName := or_null (Trade.name trade) (Trade.pseudonym trade);
            Alert.side := Trade.side trade;
            Alert.size := Trade.size trade;
            Alert.price := Trade.price trade;
            Alert.value := value;
            Alert.market := or_default (Trade.title trade) "Unknown Market";
            Alert.outcome := or_default (Trade.outcome trade) "Unknown";
            Alert.timestamp := Trade.timestamp trade;
            Alert.transactionHash := Trade.transactionHash trade |}.

(** ** Accumulator store *)

(** Body of the two merge loops, on the store's map and the counter:
    [if (alert && !whaleStore.alerts.has(alert.id)) { set; count++ }]. *)
Definition merge (alert : option WhaleAlert) (acc : Map WhaleAlert * nat)
  : Map WhaleAlert * nat :=
  match alert with
  | Some a =>
      if negb (has (Alert.id a) (fst acc))
      then (set (Alert.id a) a (fst acc), S (snd acc))
      else acc
  | None => acc
  end.

(** [for (const trade of trades) { ... }], as both cycles write it. *)
Definition mergeTrades (minValue : float) (trades : list RawTrade)
  (m : Map WhaleAlert) : Map WhaleAlert * nat :=
  fold_left (fun acc trade => merge (tradeToWhaleAlert trade minValue) acc)
            trades (m, 0).

(** [Array.from(whaleStore.alerts.values()).sort((a, b) => b.timestamp - a.timestamp)]. *)
Definition snapshot (m : Map WhaleAlert) : list WhaleAlert :=
  sort (fun a b => (Alert.timestamp b - Alert.timestamp a)%Z) (values m).

(** ** Refresh cycle *)

(** The query function, resumed with what [fetchRecentTrades(500, 0)]
    settled to and with the reading of [Date.now()].  A rejected fetch
    rejects the query function before it touches the store. *)
Definition queryFn (minValue : float) (fetched : FetchResult) (now : Z)
  (store : WhaleStore) : WhaleStore * Settled QueryData :=
  match fetched with
  | Rejected e => (store, Rejected e)
  | Resolved trades =>
      let merged := mergeTrades minValue trades (alerts store) in
      ({| alerts := fst merged; oldestOffset := oldestOffset store |},
       Resolved {| data_alerts := snapshot (fst merged);
                   newCount := snd merged;
                   updatedAt := now |})
  end.

(** [query.refetch(options)] of TanStack Query: the promise resolves with
    the query result once the run has settled.  A failed run keeps the data
    of the last success and records the error; the promise rejects only
    when [throwOnError] was passed, which is off by default. *)
Definition Query_refetch (throwOnError : bool) (run : Settled QueryData)
  (query : QueryResult) : QueryResult * Settled QueryResult :=
  match run with
  | Resolved d =>
      let query' := {| data := Some d; error := None |} in
      (query', Resolved query')
  | Rejected e =>
      let query' := {| data := data query; error := Some e |} in
      (query', if throwOnError then Rejected e else Resolved query')
  end.

(** The hook's [refetch]: [const result = await query.refetch();
    return result.data?.newCount ?? 0]. *)
Definition refetch (run : Settled QueryData) (query : QueryResult)
  : QueryResult * Settled nat :=
  match Query_refetch false run query with
  | (query', Resolved result) =>
      (query', Resolved match data result with
                        | Some d => newCount d
                        | None => 0
                        end)
  | (query', Rejected e) => (query', Rejected e)
  end.

(** A manual refresh from the store's point of view: the query function
    runs on the settled fetch, then [refetch] reads the query result. *)
Definition manualRefresh (minValue : float) (fetched : FetchResult) (now : Z)
  (store : WhaleStore) (query : QueryResult)
  : WhaleStore * QueryResult * Settled nat :=
  let (store', run) := queryFn minValue fetched now store in
  let (query', returned) := refetch run query in
  (store', query', returned).

(** ** Toast handlers of [App.tsx] *)

Definition plural (n : nat) : string := if (1 <? n)%nat then "s" else "".

Definition handleAutoRefresh (newCount : nat) : list Toast :=
  if (0 <? newCount)%nat
  then [mkToast (countToString newCount ++ " new whale" ++ plural newCount
                 ++ " detected!")%string success]
  else [].

(** [handleRefresh], resumed with what [refetchWhales()] settled to. *)
Definition handleRefresh (returned : Settled nat) : list Toast :=
  match returned with
  | Resolved newCount =>
      if (0 <? newCount)%nat
      then [mkToast ("Found " ++ countToString newCount ++ " new whale trade"
                     ++ plural newCount ++ "!")%string success]
      else [mkToast "No new trades yet" info]
  | Rejected _ => [mkToast "Failed to refresh" warning]
  end.

Definition handleLoadMore (foundCount : nat) : list Toast :=
  if (0 <? foundCount)%nat
  then [mkToast ("Found " ++ countToString foundCount ++ " more whale trade"
                 ++ plural foundCount)%string success]
  else [mkToast "No more trades in API range" info].

(** ** Notifications of a refresh cycle *)

(** Body of the hook's effect:
    [if (query.data && !isManualRefresh && onAutoRefreshRef.current)
       onAutoRefreshRef.current(query.data.newCount)]. *)
Definition autoRefreshEffect (onAutoRefresh : option (nat -> list Toast))
  (query : QueryResult) (isManualRefresh : bool) : list Toast :=
  match data query with
  | Some d =>
      if negb isManualRefresh
      then match onAutoRefresh with
           | Some callback => callback (newCount d)
           | None => []
           end
      else []
  | None => []
  end.

(** What the component holds between renders: the query result, the
    [isManualRefresh] state, and the dependency array
    [[query.data?.updatedAt, isManualRefresh]] the effect last ran with
    ([None] before the first render). *)
Record Component : Type := mkComponent {
  query : QueryResult;
  isManualRefresh : bool;
  effectDeps : option (option Z * bool)
}.

Definition deps_eqb (a b : option Z * bool) : bool :=
  match fst a, fst b with
  | Some x, Some y => (x =? y)%Z
  | None, None => true
  | _, _ => false
  end && Bool.eqb (snd a) (snd b).

(** A render: React runs the effect on the first render and whenever an
    entry of its dependency array has changed.  [App] passes
    [handleAutoRefresh] as [onAutoRefresh]. *)
Definition render (c : Component) : Component * list Toast :=
  let deps := (option_map updatedAt (data (query c)), isManualRefresh c) in
  let unchanged := match effectDeps c with
                   | Some old => deps_eqb old deps
                   | None => false
                   end in
  if unchanged then (c, [])
  else ({| query := query c;
           isManualRefresh := isManualRefresh c;
           effectDeps := Some deps |},
        autoRefreshEffect (Some handleAutoRefresh) (query c) (isManualRefresh c)).

Definition setQuery (q : QueryResult) (c : Component) : Component :=
  {| query := q; isManualRefresh := isManualRefresh c;
     effectDeps := effectDeps c |}.

Definition setIsManualRefresh (b : bool) (c : Component) : Component :=
  {| query := query c; isManualRefresh := b; effectDeps := effectDeps c |}.

Inductive Trigger : Type := Timer | WindowFocus | ManualRefresh.

(** The toasts of one refresh cycle whose query-function run settled to
    [run].  A timer or focus cycle only updates the query result.  A manual
    cycle is [handleRefresh] around [refetch]: the flag is raised, the
    refetch is awaited, [handleRefresh] resumes with the returned count,
    and the timeout of the [finally] block lowers the flag 100 ms later;
    each state change is followed by a render. *)
Definition refreshCycle (trigger : Trigger) (run : Settled QueryData)
  (c : Component) : Component * list Toast :=
  match trigger with
  | Timer | WindowFocus =>
      render (setQuery (fst (Query_refetch false run (query c))) c)
  | ManualRefresh =>
      let (c1, t1) := render (setIsManualRefresh true c) in
      let (q, returned) := refetch run (query c1) in
      let (c2, t2) := render (setQuery q c1) in
      let t3 := handleRefresh returned in
      let (c3, t4) := render (setIsManualRefresh false c2) in
      (c3, t1 ++ t2 ++ t3 ++ t4)
  end.

(** ** Pagination cycle *)

(** [loadMore] from its first statement to its first [await]: [None] when
    the guard returns 0, otherwise the offset of the fetch it issues.
    [isLoadingMore] is the value the callback closed over. *)
Definition loadMore_enter (isLoadingMore : bool) (store : WhaleStore)
  : option Z :=
  if isLoadingMore then None else Some (oldestOffset store + 500)%Z.

(** [loadMore] from the settled fetch to its next [await] or to its end:
    the store as it leaves it, [foundCount], and whether it now awaits
    [invalidateQueries].  A rejected fetch lands in the [catch] block,
    which only logs. *)
Definition loadMore_resume (minValue : float) (newOffset : Z)
  (fetched : FetchResult) (store : WhaleStore) : WhaleStore * nat * bool :=
  match fetched with
  | Resolved trades =>
      if (0 <? List.length trades)%nat
      then
        let merged := mergeTrades minValue trades (alerts store) in
        ({| alerts := fst merged; oldestOffset := newOffset |},
         snd merged, true)
      else (store, 0, false)
  | Rejected _ => (store, 0, false)
  end.

(** One call of [loadMore] that nothing interleaves with. *)
Record LoadMoreRun : Type := mkRun {
  run_store : WhaleStore;
  foundCount : nat;
  run_fetches : list (Z * Z);
  run_invalidated : bool
}.

Definition loadMore (minValue : float) (isLoadingMore : bool)
  (fetchRecentTrades : Z -> Z -> FetchResult) (store : WhaleStore)
  : LoadMoreRun :=
  match loadMore_enter isLoadingMore store with
  | None => mkRun store 0 [] false
  | Some newOffset =>
      let '(store', found, invalidated) :=
        loadMore_resume minValue newOffset
                        (fetchRecentTrades 500 newOffset)%Z store in
      mkRun store' found [(500, newOffset)%Z] invalidated
  end.

(** ** The hook as a transition system *)

(** A call of [loadMore] that is suspended at one of its two [await]s. *)
Inductive Call : Type :=
| AwaitFetch (newOffset : Z)
| AwaitInvalidate (foundCount : nat).

(** [whaleStore], the [isLoadingMore] and [lastUpdated] states, the value
    of [isLoadingMore] that the [loadMore] callback of the latest render
    closed over, and the suspended calls of [loadMore]. *)
Record Hook : Type := mkHook {
  store : WhaleStore;
  isLoadingMore : bool;
  captured : bool;
  lastUpdated : option Z;
  calls : list Call
}.

Definition mount : Hook :=
  {| store := whaleStore; isLoadingMore := false; captured := false;
     lastUpdated := None; calls := [] |}.

Inductive Event : Type :=
| Render
| Refresh (fetched : FetchResult) (now : Z)
| ClickLoadMore
| FetchSettled (i : nat) (fetched : FetchResult)
| InvalidateSettled (i : nat).

(** What the environment sees of a step: a call of [fetchRecentTrades],
    or the count a [loadMore] call resolves with. *)
Inductive Obs : Type :=
| Fetch (limit offset : Z)
| Returns (foundCount : nat).

Fixpoint remove_nth (A : Type) (i : nat) (l : list A) : list A :=
  match l, i with
  | [], _ => []
  | _ :: l', O => l'
  | x :: l', S i' => x :: remove_nth i' l'
  end.

Fixpoint replace_nth (A : Type) (i : nat) (y : A) (l : list A) : list A :=
  match l, i with
  | [], _ => []
  | _ :: l', O => y :: l'
  | x :: l', S i' => x :: replace_nth i' y l'
  end.

(** The [finally] block and the [return] of the [i]-th suspended call. *)
Definition finish (i : nat) (found : nat) (store' : WhaleStore) (h : Hook)
  : Hook * list Obs :=
  ({| store := store'; isLoadingMore := false; captured := captured h;
      lastUpdated := lastUpdated h; calls := remove_nth i (calls h) |},
   [Returns found]).

(** One step of the hook.
    - [Render]: the callbacks are re-created over the current state.
    - [Refresh]: one run of the query function (timer, focus, manual
      refresh or invalidation), taken when its fetch settles.
    - [ClickLoadMore]: [loadMore] is called through the callback of the
      latest render and runs to its first [await].  [setIsLoadingMore(true)]
      changes the state, not the value that callback closed over: only a
      render does.
    - [FetchSettled], [InvalidateSettled]: a suspended call resumes. *)
Definition step (minValue : float) (h : Hook) (e : Event)
  : Hook * list Obs :=
  match e with
  | Render =>
      ({| store := store h; isLoadingMore := isLoadingMore h;
          captured := isLoadingMore h; lastUpdated := lastUpdated h;
          calls := calls h |}, [])
  | Refresh fetched now =>
      let (store', run) := queryFn minValue fetched now (store h) in
      ({| store := store'; isLoadingMore := isLoadingMore h;
          captured := captured h;
          lastUpdated := match run with
                         | Resolved _ => Some now
                         | Rejected _ => lastUpdated h
                         end;
          calls := calls h |}, [Fetch 500 0])
  | ClickLoadMore =>
      match loadMore_enter (captured h) (store h) with
      | None => (h, [Returns 0])
      | Some newOffset =>
          ({| store := store h; isLoadingMore := true;
              captured := captured h;
              lastUpdated := lastUpdated h;
              calls := calls h ++ [AwaitFetch newOffset] |},
           [Fetch 500 newOffset])
      end
  | FetchSettled i fetched =>
      match nth_error (calls h) i with
      | Some (AwaitFetch newOffset) =>
          let '(store', found, invalidated) :=
            loadMore_resume minValue newOffset fetched (store h) in
          if invalidated
          then ({| store := store'; isLoadingMore := isLoadingMore h;
                   captured := captured h; lastUpdated := lastUpdated h;
                   calls := replace_nth i (AwaitInvalidate found) (calls h) |},
                [])
          else finish i found store' h
      | _ => (h, [])
      end
  | InvalidateSettled i =>
      match nth_error (calls h) i with
      | Some (AwaitInvalidate found) => finish i found (store h) h
      | _ => (h, [])
      end
  end.

(** A run of the hook from a state: the state reached and everything
    observed on the way. *)
Fixpoint exec (minValue : float) (events : list Event) (h : Hook)
  : Hook * list Obs :=
  match events with
  | [] => (h, [])
  | e :: events' =>
      let (h', o) := step minValue h e in
      let (h'', o') := exec minValue events' h' in
      (h'', o ++ o')
  end.

(** The number of pagination fetches in flight. *)
Definition inFlight (h : Hook) : nat :=
  List.length (filter (fun c => match c with
                                | AwaitFetch _ => true
                                | AwaitInvalidate _ => false
                                end) (calls h)).

(** At most one call of [loadMore] is suspended; while one is, the state
    says so; and a call that awaits its fetch asked for the page right
    after the cursor. *)
Definition single_flight (h : Hook) : Prop :=
  match calls h with
  | [] => True
  | [AwaitFetch newOffset] =>
      isLoadingMore h = true /\
      newOffset = (oldestOffset (store h) + 500)%Z
  | [AwaitInvalidate _] => isLoadingMore h = true
  | _ => False
  end.

(** A run in which a render separates any two calls of [loadMore]:
    [rendered] tells whether the callback at hand was created after the
    last call. *)
Fixpoint separated (rendered : bool) (events : list Event) : bool :=
  match events with
  | [] => true
  | Render :: events' => separated true events'
  | ClickLoadMore :: events' => rendered && separated false events'
  | _ :: events' => separated rendered events'
  end.

(** What such a run keeps: [single_flight], and a callback created after
    the last call has seen the guard of a suspended call. *)
Definition guarded (rendered : bool) (h : Hook) : Prop :=
  single_flight h /\
  (rendered = true -> calls h <> [] -> captured h = true).

End WhaleActivity.

(** ** A concrete instance, for the worked examples *)

Module Sample.

Local Open Scope string_scope.

(** Plain decimal digits: what [Number::toString] prints for an integer
    below 10^21 in absolute value. *)
Definition decimal (z : Z) : string :=
  NilZero.string_of_int (Z.to_int z).

Fixpoint zeros (n : nat) : string :=
  match n with
  | O => EmptyString
  | S n' => String "0" (zeros n')
  end.

(** The exact decimal expansion of a double.  It is what
    [Number::toString] prints for NaN, the infinities, the zeros and the
    integral doubles up to 2^53 in magnitude, which is all the examples
    use; elsewhere [Number::toString] prints the shortest digits that read
    back as the same double, and this stand-in does not. *)
Definition expansion (x : float) : string :=
  match Prim2SF x with
  | S754_zero _ => "0"
  | S754_infinity s => if s then "-Infinity" else "Infinity"
  | S754_nan => "NaN"
  | S754_finite s m e =>
      let sign := if s then "-" else "" in
      if (0 <=? e)%Z
      then sign ++ decimal (Zpos m * 2 ^ e)
      else
        let g := Z.gcd (Zpos m) (2 ^ (- e)) in
        let k := (- e - Z.log2 g)%Z in
        let whole := (Zpos m / g / 2 ^ k)%Z in
        let part := (((Zpos m / g) mod 2 ^ k) * 5 ^ k)%Z in
        if (part =? 0)%Z
        then sign ++ decimal whole
        else
          let digits := decimal part in
          sign ++ decimal whole ++ "." ++
          zeros (Z.to_nat k - String.length digits) ++ digits
  end.

Definition printer : NumberToString :=
  {| timestampToString := decimal; sizeToString := expansion |}.

(** Threshold 1000; 2000 shares at 0.6 (the double nearest to it). *)
Definition big : RawTrade :=
  {| Trade.proxyWallet := "0xa1"; Trade.side := BUY;
     Trade.size := 2000; Trade.price := 0x1.3333333333333p-1;
     Trade.conditionId := "0xc1"; Trade.title := Some "Market";
     Trade.outcome := Some "Yes"; Trade.timestamp := 1700000000;
     Trade.name := None; Trade.pseudonym := None;
     Trade.transactionHash := Some "0xbeef" |}.

(** 100 shares at 5. *)
Definition small : RawTrade :=
  {| Trade.proxyWallet := "0xa2"; Trade.side := SELL;
     Trade.size := 100; Trade.price := 5;
     Trade.conditionId := "0xc1"; Trade.title := Some "Market";
     Trade.outcome := Some "No"; Trade.timestamp := 1700000005;
     Trade.name := None; Trade.pseudonym := None;
     Trade.transactionHash := Some "0xf00d" |}.

(** A whale trade without a title, whose transaction hash is present but
    empty. *)
Definition unhashed : RawTrade :=
  {| Trade.proxyWallet := "0xa3"; Trade.side := BUY;
     Trade.size := 4000; Trade.price := 0.5;
     Trade.conditionId := "0xc2"; Trade.title := None;
     Trade.outcome := Some "Yes"; Trade.timestamp := 1700000010;
     Trade.name := Some ""; Trade.pseudonym := Some "whale";
     Trade.transactionHash := Some "" |}.

(** The alerts of the two whale trades. *)
Definition bigAlert : WhaleAlert :=
  {| Alert.id := "0xbeef"; Alert.trader := "0xa1";
     Alert.traderName := None; Alert.side := BUY;
     Alert.size := 2000; Alert.price := 0x1.3333333333333p-1;
     Alert.value := 1200; Alert.market := "Market";
     Alert.outcome := "Yes"; Alert.timestamp := 1700000000;
     Alert.transactionHash := Some "0xbeef" |}.

Definition unhashedAlert : WhaleAlert :=
  {| Alert.id := "0xa3-1700000010-0xc2-4000"; Alert.trader := "0xa3";
     Alert.traderName := Some "whale"; Alert.side := BUY;
     Alert.size := 4000; Alert.price := 0.5;
     Alert.value := 2000; Alert.market := "Unknown Market";
     Alert.outcome := "Yes"; Alert.timestamp := 1700000010;
     Alert.transactionHash := Some "" |}.

(** The store and the data after a first refresh cycle that fetched the
    older whale trade before the newer one. *)
Definition refreshedStore : WhaleStore :=
  {| alerts := [("0xbeef", bigAlert);
                ("0xa3-1700000010-0xc2-4000", unhashedAlert)];
     oldestOffset := 0 |}.

Definition refreshedData : QueryData :=
  {| data_alerts := [unhashedAlert; bigAlert]; newCount := 2;
     updatedAt := 17 |}.

(** A component that has rendered once, before any data arrived. *)
Definition idle : Component :=
  {| query := {| data := None; error := None |};
     isManualRefresh := false;
     effectDeps := Some (None, false) |}.

End Sample.

(** * The rest of the hook, of [App.tsx] and of [lib/api] *)

(** ** More JavaScript idioms *)

(** An integer inside a template literal, printed in plain decimal as
    [Number::toString] does for integers below 10^21. *)
Definition integerToString (z : Z) : string :=
  NilZero.string_of_int (Z.to_int z).

(** The index arithmetic of [String.prototype.slice]: a negative index
    counts from the end, and every index is clamped to the string. *)
Definition slice_index (len i : Z) : Z :=
  if (i <? 0)%Z then Z.max (len + i) 0 else Z.min i len.

(** [s.slice(start, end)], [end] being optional.  Strings are sequences of
    8-bit units here where JavaScript has 16-bit ones. *)
Definition String_slice (s : string) (start : Z) (stop : option Z) : string :=
  let len := Z.of_nat (String.length s) in
  let from := slice_index len start in
  let to := match stop with
            | Some e => slice_index len e
            | None => len
            end in
  substring (Z.to_nat from) (Z.to_nat (to - from)) s.

(** [x || 0] on a number that may be missing: [undefined], both zeros and
    NaN are falsy. *)
Definition or_zero (x : option float) : float :=
  match x with
  | Some v => if (v =? 0)%float || negb (v =? v)%float then 0%float else v
  | None => 0%float
  end.

(** A count as a JavaScript number. *)
Definition countToNumber (n : nat) : float :=
  PrimFloat.of_uint63 (Uint63Axioms.of_Z (Z.of_nat n)).

(** ** The hook's [alerts] and [oldestTimestamp] *)

(** [const alerts = query.data?.alerts ?? []]: the alerts of the last run
    of the query function that succeeded. *)
Definition returnedAlerts (query : QueryResult) : list WhaleAlert :=
  match data query with
  | Some d => data_alerts d
  | None => []
  end.

(** [alerts.length > 0 ? alerts[alerts.length - 1].timestamp : null]. *)
Definition oldestTimestamp (alerts : list WhaleAlert) : option Z :=
  if (0 <? List.length alerts)%nat
  then option_map Alert.timestamp
                  (nth_error alerts (List.length alerts - 1))
  else None.

(** ** Utilities of [App.tsx] *)

(** [`${address.slice(0, 6)}...${address.slice(-4)}`]. *)
Definition formatAddress (address : string) : string :=
  (String_slice address 0 (Some 6%Z) ++ "..." ++
   String_slice address (-4) None)%string.

(** The name a row of the list shows:
    [alert.traderName || formatAddress(alert.trader)]. *)
Definition displayName (alert : WhaleAlert) : string :=
  or_default (Alert.traderName alert) (formatAddress (Alert.trader alert)).

(** [formatTimeAgoShort(ms)], given the reading [now] of [Date.now()]. *)
Definition formatTimeAgoShort (now ms : Z) : string :=
  let seconds := ((now - ms) / 1000)%Z in
  if (seconds <? 5)%Z then "now"%string
  else if (seconds <? 60)%Z then (integerToString seconds ++ "s ago")%string
  else if (seconds <? 3600)%Z
       then (integerToString (seconds / 60) ++ "m ago")%string
  else (integerToString (seconds / 3600) ++ "h ago")%string.

(** [useTheme]: the theme state, the [theme] entry of [localStorage] and
    the [dark] class of the document element.  The stored value is cast,
    not checked, so the theme is a string. *)
Record ThemeState : Type := mkTheme {
  theme : string;
  storedTheme : option string;
  darkClass : bool
}.

(** The initializer of the state:
    [localStorage.getItem('theme') || 'dark'] (in a browser). *)
Definition initialTheme (stored : option string) : string :=
  or_default stored "dark".

(** The effect that follows a render:
    [localStorage.setItem('theme', theme)] and
    [classList.toggle('dark', theme === 'dark')]. *)
Definition themeEffect (s : ThemeState) : ThemeState :=
  {| theme := theme s;
     storedTheme := Some (theme s);
     darkClass := (theme s =? "dark")%string |}.

(** The first render of [useTheme] over a given [localStorage]. *)
Definition useTheme (stored : option string) (dark : bool) : ThemeState :=
  themeEffect {| theme := initialTheme stored;
                 storedTheme := stored; darkClass := dark |}.

(** [toggle]: [setTheme(t => t === 'dark' ? 'light' : 'dark')], and the
    render with its effect. *)
Definition toggle (s : ThemeState) : ThemeState :=
  themeEffect {| theme := if (theme s =? "dark")%string
                          then "light"%string else "dark"%string;
                 storedTheme := storedTheme s;
                 darkClass := darkClass s |}.

(** The toast state of [App]: [toastIdRef.current] and [toast]. *)
Record ToastState : Type := mkToastState {
  toastIdRef : nat;
  shown : option (nat * Toast)
}.

(** [showToast(message, type)]. *)
Definition showToast (t : Toast) (s : ToastState) : ToastState :=
  {| toastIdRef := S (toastIdRef s);
     shown := Some (S (toastIdRef s), t) |}.

(** ** [lib/api] *)

(** The body of the loop of [extractUniqueTraders]: the array found under
    the wallet (or a new one) gets the trade pushed and is put back under
    the wallet. *)
Definition addTrader (traderMap : Map (list RawTrade)) (trade : RawTrade)
  : Map (list RawTrade) :=
  let existing := match get (Trade.proxyWallet trade) traderMap with
                  | Some l => l
                  | None => []
                  end in
  set (Trade.proxyWallet trade) (existing ++ [trade]) traderMap.

Definition extractUniqueTraders (trades : list RawTrade)
  : Map (list RawTrade) :=
  fold_left addTrader trades [].

(** The trades of one wallet, in the order of the page. *)
Definition tradesOf (wallet : string) (trades : list RawTrade)
  : list RawTrade :=
  filter (fun trade => (Trade.proxyWallet trade =? wallet)%string) trades.

(** The map after the trades seen so far: one group per wallet, each in
    the order of the page. *)
Definition grouped (seen : list RawTrade) (m : Map (list RawTrade)) : Prop :=
  NoDup (map fst m) /\
  forall w, get w m = match tradesOf w seen with
                      | [] => None
                      | g => Some g
                      end.

Module Position.
(** The fields of a [ClosedPosition] that the statistics read. *)
Record t : Type := mk {
  conditionId : string;
  realizedPnl : option float;
  totalBought : option float
}.
End Position.

Definition ClosedPosition : Type := Position.t.

(** [interface UserStats]. *)
Record UserStats : Type := mkStats {
  address : string;
  username : option string;
  pseudonym : option string;
  totalPositions : nat;
  uniqueMarkets : nat;
  winningTrades : nat;
  totalTrades : nat;
  winRate : float;
  realizedPnl : float;
  volume : float;
  biggestWin : float
}.

(** The four accumulators of the loop of
    [calculateStatsFromClosedPositions]. *)
Record Tally : Type := mkTally {
  t_winning : nat;
  t_pnl : float;
  t_volume : float;
  t_biggest : float
}.

(** The body of the loop. *)
Definition tally (acc : Tally) (pos : ClosedPosition) : Tally :=
  let pnl := or_zero (Position.realizedPnl pos) in
  let wins := (0 <? pnl)%float in
  {| t_winning := if wins then S (t_winning acc) else t_winning acc;
     t_pnl := (t_pnl acc + pnl)%float;
     t_volume := (t_volume acc + or_zero (Position.totalBought pos))%float;
     t_biggest := if wins && (t_biggest acc <? pnl)%float
                  then pnl else t_biggest acc |}.

(** [new Set(ids).size]: the number of distinct identifiers. *)
Definition distinct (ids : list string) : nat :=
  List.length (nodup string_dec ids).

Definition calculateStatsFromClosedPositions (address : string)
  (closedPositions : list ClosedPosition)
  (profileName profilePseudonym : option string) : UserStats :=
  let final := fold_left tally closedPositions
                         (mkTally 0 0%float 0%float 0%float) in
  let total := List.length closedPositions in
  {| address := address;
     username := profileName;
     pseudonym := profilePseudonym;
     totalPositions := total;
     uniqueMarkets := distinct (map Position.conditionId closedPositions);
     winningTrades := t_winning final;
     totalTrades := total;
     winRate := if (0 <? total)%nat
                then (countToNumber (t_winning final) / countToNumber total
                      * 100)%float
                else 0%float;
     realizedPnl := t_pnl final;
     volume := t_volume final;
     biggestWin := t_biggest final |}.

(** ** Invariants of the store *)

(** An alert as the classifier builds them for a threshold: its value is
    the product of its size and price and is not below the threshold, and
    its display fields are filled in. *)
Definition whale (minValue : float) (a : WhaleAlert) : Prop :=
  Alert.value a = (Alert.size a * Alert.price a)%float /\
  (Alert.value a <? minValue)%float = false /\
  Alert.market a <> ""%string /\
  Alert.outcome a <> ""%string /\
  Alert.traderName a <> Some ""%string.

(** What the two invariants say of one entry of the map. *)
Definition entry_ok (minValue : float) (kv : string * WhaleAlert) : Prop :=
  fst kv = Alert.id (snd kv) /\ whale minValue (snd kv).

(** The guard of the pagination cycle is down whenever no call is
    suspended. *)
Definition guard_released (h : Hook) : Prop :=
  calls h = [] -> isLoadingMore h = false.

(** A component at rest: its effect has run with the dependencies it has
    now. *)
Definition at_rest (c : Component) : Prop :=
  effectDeps c
  = Some (option_map updatedAt (data (query c)), isManualRefresh c).

(** * Properties *)

Unset Implicit Arguments.

(** ** The map and the sort *)

Section MapFacts.
Variable V : Type.
Implicit Types (m : Map V) (k : string) (v : V).

Lemma has_app k m m' : has k (m ++ m') = has k m || has k m'.
Proof.
  induction m as [|[k' v'] m IH]; simpl; [reflexivity|].
  destruct (k' =? k)%string; [reflexivity | exact IH].
Qed.

Lemma set_fresh k v m : has k m = false -> set k v m = m ++ [(k, v)].
Proof.
  induction m as [|[k' v'] m IH]; simpl; [reflexivity|].
  destruct (k' =? k)%string; [discriminate|].
  intros Hm. now rewrite IH.
Qed.

Lemma has_set k v m : has k (set k v m) = true.
Proof.
  induction m as [|[k' v'] m IH]; simpl.
  - now rewrite String.eqb_refl.
  - destruct (k' =? k)%string eqn:E; simpl; rewrite E; [reflexivity | exact IH].
Qed.

Lemma get_app_present k m m' : has k m = true -> get k (m ++ m') = get k m.
Proof.
  induction m as [|[k' v'] m IH]; simpl; [discriminate|].
  destruct (k' =? k)%string; [reflexivity | exact IH].
Qed.

Lemma get_has k v m : get k m = Some v -> has k m = true.
Proof.
  induction m as [|[k' v'] m IH]; simpl; [discriminate|].
  destruct (k' =? k)%string; [reflexivity | exact IH].
Qed.
End MapFacts.

Section SortFacts.
Variable A : Type.
Variable key : A -> Z.

(** The comparator of the hook, over any projection: descending keys. *)
Let cmp (a b : A) : Z := (key b - key a)%Z.
Let desc (a b : A) : Prop := (key a >= key b)%Z.

Lemma insert_perm x l : Permutation (insert cmp x l) (x :: l).
Proof.
  induction l as [|y l IH]; simpl; [reflexivity|].
  destruct (cmp x y <=? 0)%Z; [reflexivity|].
  rewrite IH. apply perm_swap.
Qed.

Lemma sort_perm l : Permutation (sort cmp l) l.
Proof.
  induction l as [|x l IH]; simpl; [constructor|].
  rewrite insert_perm. now constructor.
Qed.

Lemma insert_sorted x l :
  StronglySorted desc l -> StronglySorted desc (insert cmp x l).
Proof.
  induction 1 as [|y l Hl IH Hy]; simpl.
  - repeat constructor.
  - destruct (cmp x y <=? 0)%Z eqn:E.
    + apply Z.leb_le in E. unfold cmp in E.
      constructor; [now constructor|].
      constructor; [unfold desc; lia|].
      eapply Forall_impl; [|exact Hy].
      unfold desc. intros; lia.
    + apply Z.leb_gt in E. unfold cmp in E.
      constructor; [exact IH|].
      eapply Permutation_Forall; [symmetry; apply insert_perm|].
      constructor; [unfold desc; lia | exact Hy].
Qed.

Lemma sort_sorted l : StronglySorted desc (sort cmp l).
Proof.
  induction l as [|x l IH]; simpl; [constructor | now apply insert_sorted].
Qed.

(** In a strongly sorted list, whatever comes first is related to
    whatever comes later. *)
Lemma sorted_before (R : A -> A -> Prop) l1 a l2 b l3 :
  StronglySorted R (l1 ++ a :: l2 ++ b :: l3) -> R a b.
Proof.
  induction l1 as [|x l1 IH]; simpl; intros H; inversion H; subst.
  - match goal with F : Forall _ _ |- _ =>
      rewrite Forall_forall in F; apply F end.
    apply in_or_app; right; now left.
  - now apply IH.
Qed.
End SortFacts.

(** ** Trade classifier *)

Section Classifier.
Context {printer : NumberToString}.

(** C1.  For every raw trade and every threshold, the classifier returns
    nothing when [size * price < minValue], and otherwise returns an alert
    whose [value] field is exactly [size * price].  The classifier is a
    function of the trade and the threshold alone: it neither reads nor
    writes the store. *)
Theorem tradeToWhaleAlert_threshold (trade : RawTrade) (minValue : float) :
  let value := (Trade.size trade * Trade.price trade)%float in
  ((value <? minValue)%float = true ->
   tradeToWhaleAlert trade minValue = None) /\
  ((value <? minValue)%float = false ->
   exists alert, tradeToWhaleAlert trade minValue = Some alert /\
                 Alert.value alert = value).
Proof.
  unfold tradeToWhaleAlert. split; intros E; rewrite E.
  - reflexivity.
  - eexists. split; reflexivity.
Qed.

Lemma tradeToWhaleAlert_id trade minValue alert :
  tradeToWhaleAlert trade minValue = Some alert ->
  Alert.id alert =
    or_default (Trade.transactionHash trade) (synthesizedId trade).
Proof.
  unfold tradeToWhaleAlert.
  destruct (_ <? _)%float; [discriminate|].
  intros [= <-]. reflexivity.
Qed.

(** C9, amended.  For every raw trade the classifier accepts, the alert
    identifier is the upstream transaction hash when that hash is present
    and not the empty string; when it is absent or empty the identifier is
    synthesized from exactly the wallet, the timestamp, the market
    identifier and the size, so that two such trades which agree on those
    four fields get the same identifier whatever their price and side. *)
Theorem alert_id_derivation (trade : RawTrade) (minValue : float)
  (alert : WhaleAlert) :
  tradeToWhaleAlert trade minValue = Some alert ->
  (forall h, Trade.transactionHash trade = Some h -> h <> ""%string ->
             Alert.id alert = h) /\
  (Trade.transactionHash trade = None \/
   Trade.transactionHash trade = Some ""%string ->
   Alert.id alert =
     (Trade.proxyWallet trade ++ "-" ++
      timestampToString (Trade.timestamp trade) ++ "-" ++
      Trade.conditionId trade ++ "-" ++
      sizeToString (Trade.size trade))%string /\
   forall trade' minValue' alert',
     tradeToWhaleAlert trade' minValue' = Some alert' ->
     (Trade.transactionHash trade' = None \/
      Trade.transactionHash trade' = Some ""%string) ->
     Trade.proxyWallet trade' = Trade.proxyWallet trade ->
     Trade.timestamp trade' = Trade.timestamp trade ->
     Trade.conditionId trade' = Trade.conditionId trade ->
     Trade.size trade' = Trade.size trade ->
     Alert.id alert' = Alert.id alert).
Proof.
  intros Ha. apply tradeToWhaleAlert_id in Ha. split.
  - intros h Hh Hne. rewrite Ha, Hh. simpl.
    destruct (String.eqb_spec h ""); [contradiction | reflexivity].
  - intros Hno.
    assert (Hsyn : Alert.id alert = synthesizedId trade)
      by (rewrite Ha; destruct Hno as [-> | ->]; reflexivity).
    split; [exact Hsyn|].
    intros trade' minValue' alert' Ha' Hno' Hw Ht Hc Hs.
    apply tradeToWhaleAlert_id in Ha'.
    rewrite Ha', Hsyn.
    replace (or_default (Trade.transactionHash trade') (synthesizedId trade'))
      with (synthesizedId trade')
      by (destruct Hno' as [-> | ->]; reflexivity).
    unfold synthesizedId. now rewrite Hw, Ht, Hc, Hs.
Qed.

End Classifier.

(** ** Accumulator store *)

Section Store.
Context {printer : NumberToString}.
Implicit Types (m : Map WhaleAlert) (a : WhaleAlert).

Lemma merge_present a m count :
  has (Alert.id a) m = true -> merge (Some a) (m, count) = (m, count).
Proof. intros H. unfold merge. simpl. now rewrite H. Qed.

Lemma merge_absent a m count :
  has (Alert.id a) m = false ->
  merge (Some a) (m, count) = (m ++ [(Alert.id a, a)], S count).
Proof. intros H. unfold merge. simpl. rewrite H. simpl. now rewrite set_fresh. Qed.

(** One merge appends at most one entry, and counts exactly what it
    appends. *)
Lemma merge_extends (x : option WhaleAlert) (acc : Map WhaleAlert * nat) :
  exists suffix,
    fst (merge x acc) = fst acc ++ suffix /\
    snd (merge x acc) = snd acc + List.length suffix /\
    List.length suffix <= 1.
Proof.
  destruct acc as [m count], x as [a|].
  - destruct (has (Alert.id a) m) eqn:E.
    + rewrite merge_present by exact E. exists []. simpl.
      rewrite app_nil_r. repeat split; lia.
    + rewrite merge_absent by exact E. exists [(Alert.id a, a)]. simpl.
      repeat split; lia.
  - exists []. simpl. rewrite app_nil_r. repeat split; lia.
Qed.

Lemma merge_all_extends (xs : list (option WhaleAlert))
  (acc : Map WhaleAlert * nat) :
  exists suffix,
    fst (fold_left (fun acc x => merge x acc) xs acc) = fst acc ++ suffix /\
    snd (fold_left (fun acc x => merge x acc) xs acc)
      = snd acc + List.length suffix.
Proof.
  revert acc. induction xs as [|x xs IH]; intros acc; simpl.
  - exists []. rewrite app_nil_r. split; [reflexivity | simpl; lia].
  - destruct (IH (merge x acc)) as (s2 & E2 & C2).
    destruct (merge_extends x acc) as (s1 & E1 & C1 & _).
    exists (s1 ++ s2). rewrite E2, C2, E1, C1, length_app, app_assoc.
    split; [reflexivity | lia].
Qed.

Lemma mergeTrades_fold minValue trades m :
  mergeTrades minValue trades m =
  fold_left (fun acc x => merge x acc)
            (map (fun trade => tradeToWhaleAlert trade minValue) trades)
            (m, 0).
Proof.
  unfold mergeTrades. generalize (m, 0). clear m.
  induction trades as [|t trades IH]; intros acc; simpl; [reflexivity|].
  apply IH.
Qed.

(** A merge loop appends to the map and counts exactly what it appends. *)
Lemma mergeTrades_extends minValue trades m :
  exists suffix,
    fst (mergeTrades minValue trades m) = m ++ suffix /\
    snd (mergeTrades minValue trades m) = List.length suffix.
Proof.
  rewrite mergeTrades_fold.
  destruct (merge_all_extends
              (map (fun trade => tradeToWhaleAlert trade minValue) trades)
              (m, 0)) as (s & E & C).
  exists s. split; [exact E | exact C].
Qed.

(** Every step of the hook leaves the map as it was or appends to it. *)
Lemma step_alerts_extends minValue (h : Hook) (e : Event) :
  exists suffix,
    alerts (store (fst (step minValue h e))) = alerts (store h) ++ suffix.
Proof.
  assert (Same : exists suffix, alerts (store h) = alerts (store h) ++ suffix)
    by (exists []; now rewrite app_nil_r).
  destruct e as [| fetched now | | i fetched | i]; simpl.
  - exact Same.
  - destruct fetched as [trades|]; simpl; [|exact Same].
    destruct (mergeTrades_extends minValue trades (alerts (store h)))
      as (s & E & _).
    now exists s.
  - destruct (loadMore_enter (captured h) (store h)); exact Same.
  - destruct (nth_error (calls h) i) as [[o|f]|]; try exact Same.
    destruct fetched as [[|t trades]|]; simpl; try exact Same.
    destruct (mergeTrades_extends minValue (t :: trades) (alerts (store h)))
      as (s & E & _).
    now exists s.
  - destruct (nth_error (calls h) i) as [[o|f]|]; exact Same.
Qed.

(** C2.  A merge of an alert whose identifier is already a key leaves the
    map unchanged and is not counted.  Two merges of the same identifier,
    whatever is merged between them, add at most one entry: the first adds
    at most one and the second none.  A merge, each merge loop of the two
    cycles, and so every step of the hook, only appends: the old entries
    stay, in place, with their values. *)
Theorem merge_idempotent_append_only (m : Map WhaleAlert) (count : nat)
  (a : WhaleAlert) :
  (has (Alert.id a) m = true -> merge (Some a) (m, count) = (m, count)) /\
  (forall (between : list (option WhaleAlert)) (a' : WhaleAlert),
      Alert.id a' = Alert.id a ->
      let first := merge (Some a) (m, count) in
      let mid := fold_left (fun acc x => merge x acc) between first in
      merge (Some a') mid = mid /\
      size (fst first) <= size m + 1 /\
      size (fst (merge (Some a') first)) <= size m + 1) /\
  (exists suffix,
      fst (merge (Some a) (m, count)) = m ++ suffix /\
      forall k v, get k m = Some v ->
                  get k (fst (merge (Some a) (m, count))) = Some v) /\
  (forall minValue trades,
      exists suffix,
        fst (mergeTrades minValue trades m) = m ++ suffix /\
        forall k v, get k m = Some v ->
                    get k (fst (mergeTrades minValue trades m)) = Some v) /\
  (forall minValue (h : Hook) (e : Event),
      exists suffix,
        alerts (store (fst (step minValue h e))) = alerts (store h) ++ suffix /\
        forall k v, get k (alerts (store h)) = Some v ->
                    get k (alerts (store (fst (step minValue h e)))) = Some v).
Proof.
  assert (Hin : has (Alert.id a) (fst (merge (Some a) (m, count))) = true).
  { destruct (has (Alert.id a) m) eqn:E.
    - now rewrite merge_present.
    - rewrite merge_absent by exact E. simpl.
      rewrite has_app, E. simpl. now rewrite String.eqb_refl. }
  assert (Hsz : size (fst (merge (Some a) (m, count))) <= size m + 1).
  { destruct (merge_extends (Some a) (m, count)) as (s & E & _ & L).
    rewrite E. unfold size. simpl. rewrite length_app. lia. }
  split; [apply merge_present|]. split; [|split; [|split]].
  - intros between a' Hid first mid.
    assert (Hmid : has (Alert.id a') (fst mid) = true).
    { destruct (merge_all_extends between first) as (s & E & _).
      fold mid in E. rewrite E, has_app, Hid. subst first.
      now rewrite Hin. }
    split; [|split].
    + destruct mid as [mm cc]. now apply merge_present.
    + exact Hsz.
    + replace (merge (Some a') first) with first; [exact Hsz|].
      subst first. destruct (merge (Some a) (m, count)) as [mm cc] eqn:Em.
      symmetry. apply merge_present. now rewrite Hid.
  - destruct (merge_extends (Some a) (m, count)) as (s & E & _).
    exists s. split; [exact E|].
    intros k v Hk. rewrite E. simpl.
    rewrite get_app_present; [exact Hk | eapply get_has; exact Hk].
  - intros minValue trades.
    destruct (mergeTrades_extends minValue trades m) as (s & E & _).
    exists s. split; [exact E|].
    intros k v Hk. rewrite E.
    rewrite get_app_present; [exact Hk | eapply get_has; exact Hk].
  - intros minValue h e.
    destruct (step_alerts_extends minValue h e) as (s & E).
    exists s. split; [exact E|].
    intros k v Hk. rewrite E.
    rewrite get_app_present; [exact Hk | eapply get_has; exact Hk].
Qed.

(** C3.  The alerts a refresh cycle returns are the snapshot of the store
    it leaves: the values of the map, each exactly once, in descending
    order of timestamp, so that an alert that comes before another one has
    a timestamp at least as large. *)
Theorem snapshot_sorted (minValue : float) (fetched : FetchResult) (now : Z)
  (store store' : WhaleStore) (d : QueryData) :
  queryFn minValue fetched now store = (store', Resolved d) ->
  data_alerts d = snapshot (alerts store') /\
  Permutation (data_alerts d) (values (alerts store')) /\
  StronglySorted
    (fun a b => (Alert.timestamp a >= Alert.timestamp b)%Z) (data_alerts d) /\
  forall l1 a l2 b l3,
    data_alerts d = l1 ++ a :: l2 ++ b :: l3 ->
    (Alert.timestamp a >= Alert.timestamp b)%Z.
Proof.
  unfold queryFn. destruct fetched as [trades|e]; [|discriminate].
  intros [= <- <-]. simpl.
  assert (S : StronglySorted
                (fun a b => (Alert.timestamp a >= Alert.timestamp b)%Z)
                (snapshot (fst (mergeTrades minValue trades (alerts store)))))
    by apply (sort_sorted _ Alert.timestamp).
  split; [reflexivity|]. split; [apply (sort_perm _ Alert.timestamp)|].
  split; [exact S|].
  intros l1 a l2 b l3 E. rewrite E in S.
  eapply sorted_before in S. exact S.
Qed.

End Store.

(** ** Refresh cycle and its notifications *)

Section Refresh.
Context {printer : NumberToString}.

(** C4, what the code does.  When the fetch of a manual refresh is
    rejected, the store is untouched and the query records the error, yet
    [refetch] resolves: with the count of the last successful cycle, or
    with 0 when there is none.  [handleRefresh] therefore never reaches
    its warning toast, and with no earlier data it shows the very toast of
    a successful cycle that found nothing new. *)
Theorem refetch_swallows_fetch_error (minValue : float) (e : string)
  (now : Z) (store : WhaleStore) (query : QueryResult) :
  let '(store', query', returned) :=
    manualRefresh minValue (Rejected e) now store query in
  store' = store /\
  error query' = Some e /\
  returned = Resolved match data query with
                      | Some d => newCount d
                      | None => 0
                      end /\
  (forall t, In t (handleRefresh returned) -> type t <> warning) /\
  (data query = None ->
   handleRefresh returned =
   handleRefresh (snd (manualRefresh minValue (Resolved []) now store query))).
Proof.
  unfold manualRefresh, refetch. simpl.
  repeat split.
  - intros t. destruct (0 <? _)%nat; simpl; intros [<- | []]; discriminate.
  - intros ->. reflexivity.
Qed.

Ltac render_cases :=
  unfold render; cbv zeta;
  match goal with |- context [if ?b then _ else _] => destruct b end.

Lemma render_query (c : Component) : query (fst (render c)) = query c.
Proof. render_cases; reflexivity. Qed.

Lemma render_isManualRefresh (c : Component) :
  isManualRefresh (fst (render c)) = isManualRefresh c.
Proof. render_cases; reflexivity. Qed.

(** A render is silent while the manual flag is up, and when the data at
    hand reports no new trade. *)
Lemma render_silent (c : Component) :
  isManualRefresh c = true \/
  (forall d, data (query c) = Some d -> newCount d = 0) ->
  snd (render c) = [].
Proof.
  intros H. render_cases; [reflexivity|].
  simpl. unfold autoRefreshEffect.
  destruct (data (query c)) as [d|]; [|reflexivity].
  destruct H as [-> | H]; [reflexivity|].
  rewrite (H d eq_refl). now destruct (negb _).
Qed.

(** C8.  A completed refresh cycle that found nothing new produces no
    toast when the timer or the window focus triggered it, and exactly
    one, the neutral [No new trades yet], when the manual refresh did; the
    two paths differ. *)
Theorem zero_count_notifications (d : QueryData) (c : Component) :
  newCount d = 0 ->
  snd (refreshCycle Timer (Resolved d) c) = [] /\
  snd (refreshCycle WindowFocus (Resolved d) c) = [] /\
  snd (refreshCycle ManualRefresh (Resolved d) c)
    = [mkToast "No new trades yet" info] /\
  snd (refreshCycle ManualRefresh (Resolved d) c)
    <> snd (refreshCycle Timer (Resolved d) c).
Proof.
  intros Hd.
  assert (Hauto : snd (render (setQuery {| data := Some d; error := None |} c)) = []).
  { apply render_silent. right. simpl. now intros d' [= <-]. }
  assert (Hman : snd (refreshCycle ManualRefresh (Resolved d) c)
                 = [mkToast "No new trades yet" info]).
  { unfold refreshCycle, refetch. simpl.
    destruct (render (setIsManualRefresh true c)) as [c1 t1] eqn:E1.
    destruct (render (setQuery {| data := Some d; error := None |} c1))
      as [c2 t2] eqn:E2.
    destruct (render (setIsManualRefresh false c2)) as [c3 t4] eqn:E4.
    assert (M1 : isManualRefresh c1 = true)
      by (change c1 with (fst (c1, t1)); rewrite <- E1;
          now rewrite render_isManualRefresh).
    assert (Q2 : query c2 = {| data := Some d; error := None |})
      by (change c2 with (fst (c2, t2)); rewrite <- E2;
          now rewrite render_query).
    assert (T1 : t1 = [])
      by (change t1 with (snd (c1, t1)); rewrite <- E1;
          apply render_silent; now left).
    assert (T2 : t2 = [])
      by (change t2 with (snd (c2, t2)); rewrite <- E2;
          apply render_silent; now left).
    assert (T4 : t4 = []).
    { change t4 with (snd (c3, t4)). rewrite <- E4.
      apply render_silent. right. simpl. rewrite Q2. simpl.
      now intros d' [= <-]. }
    simpl. rewrite T1, T2, T4, Hd. reflexivity. }
  repeat split; try exact Hauto; try exact Hman.
  rewrite Hman. simpl. rewrite Hauto. discriminate.
Qed.

End Refresh.

(** ** Pagination cycle *)

Section Pagination.
Context {printer : NumberToString}.
Variable minValue : float.

Lemma queryFn_oldestOffset fetched now st :
  oldestOffset (fst (queryFn minValue fetched now st)) = oldestOffset st.
Proof. now destruct fetched. Qed.

Lemma mount_guarded : guarded true mount.
Proof. split; [exact I | intros _ H; now contradiction H]. Qed.

(** A step of a separated run keeps [guarded]; a call turns the flag
    off and a render turns it on. *)
Lemma step_guarded rendered h e :
  guarded rendered h ->
  (e = ClickLoadMore -> rendered = true) ->
  guarded match e with
          | Render => true
          | ClickLoadMore => false
          | _ => rendered
          end (fst (step minValue h e)).
Proof.
  unfold guarded, single_flight.
  destruct h as [st ilm cap lu cs]; simpl.
  destruct cs as [|[o|f] [|c' cs']]; simpl; intros [Inv G] Hc;
    try contradiction;
    destruct e as [| fetched now | | i fetched | i]; simpl;
    try (destruct i as [|[|i]]; simpl);
    try (destruct fetched as [[|t trades]|]; simpl);
    try (destruct cap; simpl);
    try (specialize (Hc eq_refl));
    repeat split; try discriminate; try tauto;
    intuition (try discriminate; try congruence; auto).
Qed.

Lemma separated_step rendered e events :
  separated rendered (e :: events) = true ->
  (e = ClickLoadMore -> rendered = true) /\
  separated match e with
            | Render => true
            | ClickLoadMore => false
            | _ => rendered
            end events = true.
Proof.
  destruct e; simpl; intros H; try (split; [discriminate | exact H]).
  apply andb_prop in H as [H1 H2]. now split.
Qed.

(** A separated run, cut anywhere, leaves the hook [guarded] for the rest
    of the run. *)
Lemma exec_guarded events events' :
  forall rendered h,
    guarded rendered h ->
    separated rendered (events ++ events') = true ->
    exists rendered',
      guarded rendered' (fst (exec minValue events h)) /\
      separated rendered' events' = true.
Proof.
  induction events as [|e events IH]; intros rendered h G S; simpl.
  - exists rendered. now split.
  - simpl in S. apply separated_step in S as [Hc S].
    pose proof (step_guarded rendered h e G Hc) as G'.
    destruct (step minValue h e) as [h' o]. simpl in G'.
    destruct (IH _ h' G' S) as (r & Gr & Sr).
    destruct (exec minValue events h') as [h'' o']. exists r. now split.
Qed.

Lemma exec_app events events' h :
  fst (exec minValue (events ++ events') h)
  = fst (exec minValue events' (fst (exec minValue events h))).
Proof.
  revert h. induction events as [|e events IH]; intros h; simpl; [reflexivity|].
  destruct (step minValue h e) as [h' o].
  specialize (IH h').
  destruct (exec minValue (events ++ events') h') as [h2 o2].
  destruct (exec minValue events h') as [h1 o1]. simpl in *. exact IH.
Qed.

(** While at most one call is suspended, a step moves the cursor only
    when a pagination fetch settles, and then to the cursor plus 500. *)
Lemma step_oldestOffset h e :
  single_flight h ->
  oldestOffset (store (fst (step minValue h e))) = oldestOffset (store h) \/
  (oldestOffset (store (fst (step minValue h e)))
     = (oldestOffset (store h) + 500)%Z /\
   exists i fetched, e = FetchSettled i fetched).
Proof.
  unfold single_flight.
  destruct h as [st ilm cap lu cs]; simpl.
  destruct cs as [|[o|f] [|c' cs']]; simpl; intros Inv; try contradiction;
    destruct e as [| fetched now | | i fetched | i]; simpl;
    try (destruct i as [|[|i]]; simpl);
    try (destruct fetched as [[|t trades]|]; simpl);
    try (destruct cap; simpl);
    try (now left).
  all: right; split; [tauto | eauto].
Qed.

Lemma exec_oldestOffset_le events :
  forall rendered h,
    guarded rendered h -> separated rendered events = true ->
    (oldestOffset (store h)
     <= oldestOffset (store (fst (exec minValue events h))))%Z.
Proof.
  induction events as [|e events IH]; intros rendered h G S; simpl; [lia|].
  apply separated_step in S as [Hc S].
  pose proof (step_guarded rendered h e G Hc) as G'.
  pose proof (step_oldestOffset h e (proj1 G)) as Hs.
  destruct (step minValue h e) as [h' o]. simpl in *.
  specialize (IH _ h' G' S).
  destruct (exec minValue events h') as [h'' o']. simpl in *. lia.
Qed.

(** Whatever the run, a step leaves the cursor or writes the offset that
    a suspended call computed when it was made. *)
Lemma step_writes_newOffset h e :
  oldestOffset (store (fst (step minValue h e))) = oldestOffset (store h) \/
  exists i fetched newOffset,
    e = FetchSettled i fetched /\
    nth_error (calls h) i = Some (AwaitFetch newOffset) /\
    oldestOffset (store (fst (step minValue h e))) = newOffset.
Proof.
  destruct e as [| fetched now | | i fetched | i]; simpl.
  - now left.
  - left. now destruct fetched.
  - left. now destruct (loadMore_enter (captured h) (store h)).
  - destruct (nth_error (calls h) i) as [[o|f]|] eqn:E; try now left.
    destruct fetched as [[|t trades]|]; simpl; try now left.
    right. exists i, (Resolved (t :: trades)), o. now repeat split.
  - left. now destruct (nth_error (calls h) i) as [[o|f]|].
Qed.

(** A merge loop over trades that are all below the threshold or already
    in the map changes nothing and counts nothing. *)
Lemma mergeTrades_nothing_new trades m :
  Forall (fun trade =>
            tradeToWhaleAlert trade minValue = None \/
            exists a, tradeToWhaleAlert trade minValue = Some a /\
                      has (Alert.id a) m = true) trades ->
  mergeTrades minValue trades m = (m, 0).
Proof.
  unfold mergeTrades. intros Hall. generalize 0.
  induction Hall as [|t trades Ht _ IH]; intros count;
    cbn [fold_left]; [reflexivity|].
  destruct Ht as [-> | (a & -> & Ha)].
  - apply IH.
  - rewrite merge_present by exact Ha. apply IH.
Qed.

(** A pagination cycle over such a page, when the page is not empty,
    finds nothing and moves the cursor all the same. *)
Lemma loadMore_nothing_new fetchRecentTrades st page :
  fetchRecentTrades 500%Z (oldestOffset st + 500)%Z = Resolved page ->
  page <> [] ->
  Forall (fun trade =>
            tradeToWhaleAlert trade minValue = None \/
            exists a, tradeToWhaleAlert trade minValue = Some a /\
                      has (Alert.id a) (alerts st) = true) page ->
  loadMore minValue false fetchRecentTrades st =
  mkRun {| alerts := alerts st; oldestOffset := oldestOffset st + 500 |}
        0 [(500, oldestOffset st + 500)%Z] true.
Proof.
  intros Hf Hne Hall. unfold loadMore, loadMore_enter, loadMore_resume.
  rewrite Hf. destruct page as [|t page]; [contradiction|].
  simpl (0 <? _)%nat. cbv iota.
  now rewrite (mergeTrades_nothing_new _ _ Hall).
Qed.

End Pagination.

Section PaginationClaims.
Context {printer : NumberToString}.

Lemma single_flight_calls (h : Hook) :
  single_flight h ->
  List.length (calls h) <= 1 /\ inFlight h <= 1 /\
  (calls h <> [] -> isLoadingMore h = true).
Proof.
  unfold single_flight, inFlight.
  destruct (calls h) as [|[o|f] [|c cs]]; simpl; intros H;
    try contradiction; repeat split; try lia; tauto.
Qed.

Lemma click_while_captured (minValue : float) (h : Hook) :
  captured h = true -> step minValue h ClickLoadMore = (h, [Returns 0]).
Proof. intros H. simpl. unfold loadMore_enter. now rewrite H. Qed.

(** C5, what the code does.  A call of [loadMore] whose callback closed
    over a set guard returns 0, fetches nothing and changes nothing.  But
    the guard a call tests is the one its callback closed over, which
    [setIsLoadingMore(true)] does not change: a call whose callback closed
    over a lowered guard issues a fetch and suspends whatever is in flight,
    and leaves that callback as it was.  Two calls from the mounted hook
    with no render in between both fetch the page at 500, so that two
    pagination fetches are in flight. *)
Theorem loadMore_guard_is_stale (minValue : float) :
  (forall fetchRecentTrades st,
      loadMore minValue true fetchRecentTrades st = mkRun st 0 [] false) /\
  (forall h, captured h = true ->
             step minValue h ClickLoadMore = (h, [Returns 0])) /\
  (forall h, captured h = false ->
             let h' := fst (step minValue h ClickLoadMore) in
             captured h' = false /\
             isLoadingMore h' = true /\
             calls h' = calls h ++ [AwaitFetch (oldestOffset (store h) + 500)] /\
             snd (step minValue h ClickLoadMore)
             = [Fetch 500 (oldestOffset (store h) + 500)]) /\
  (let run := exec minValue [ClickLoadMore; ClickLoadMore] mount in
   calls (fst run) = [AwaitFetch 500; AwaitFetch 500] /\
   inFlight (fst run) = 2 /\
   snd run = [Fetch 500 500; Fetch 500 500]).
Proof.
  split; [reflexivity|]. split; [apply click_while_captured|]. split.
  - intros h Hc. simpl. unfold loadMore_enter. rewrite Hc. simpl.
    repeat split.
  - repeat split.
Qed.

(** C6.  When the fetch at [oldestOffset + 500] returns an empty page, the
    pagination cycle returns 0 and leaves the cursor and the alerts as
    they were; the same holds when the empty page arrives while other
    events have run since the call. *)
Theorem loadMore_empty_page (minValue : float) (isLoadingMore : bool)
  (fetchRecentTrades : Z -> Z -> FetchResult) (st : WhaleStore) :
  fetchRecentTrades 500%Z (oldestOffset st + 500)%Z = Resolved [] ->
  let run := loadMore minValue isLoadingMore fetchRecentTrades st in
  foundCount run = 0 /\
  oldestOffset (run_store run) = oldestOffset st /\
  alerts (run_store run) = alerts st /\
  forall h i newOffset,
    nth_error (calls h) i = Some (AwaitFetch newOffset) ->
    store (fst (step minValue h (FetchSettled i (Resolved [])))) = store h /\
    snd (step minValue h (FetchSettled i (Resolved []))) = [Returns 0].
Proof.
  intros Hf. unfold loadMore, loadMore_enter.
  destruct isLoadingMore; [|rewrite Hf]; simpl;
    (repeat split; try reflexivity);
    match goal with Hc : nth_error _ _ = _ |- _ => rewrite Hc end;
    reflexivity.
Qed.

(** C7, what the code does.  The cursor starts at 0 and is an integer,
    the query function never writes it, and a step writes it only when a
    pagination fetch settles.  What is written is the offset the call
    computed when it was made, the cursor of that moment plus 500, not the
    cursor of the moment of the write plus 500.  With the calls that the
    stale guard lets overlap, the cursor goes down: two calls made together
    ask for 500, a third made after the first has finished asks for 1000
    and writes it, and then the second writes its 500. *)
Theorem oldestOffset_can_decrease (minValue : float) :
  oldestOffset whaleStore = 0%Z /\
  store mount = whaleStore /\
  (forall fetched now st,
      oldestOffset (fst (queryFn minValue fetched now st)) = oldestOffset st) /\
  (forall h e,
      oldestOffset (store (fst (step minValue h e))) = oldestOffset (store h) \/
      exists i fetched newOffset,
        e = FetchSettled i fetched /\
        nth_error (calls h) i = Some (AwaitFetch newOffset) /\
        oldestOffset (store (fst (step minValue h e))) = newOffset) /\
  (let page := Resolved [Sample.small] in
   let before :=
     fst (exec 1000 [ClickLoadMore; ClickLoadMore; FetchSettled 0 page;
                     InvalidateSettled 0; Render; ClickLoadMore;
                     FetchSettled 1 page] mount) in
   let after := fst (step 1000 before (FetchSettled 0 page)) in
   calls before = [AwaitFetch 500; AwaitInvalidate 0] /\
   oldestOffset (store before) = 1000%Z /\
   oldestOffset (store after) = 500%Z).
Proof.
  split; [reflexivity|]. split; [reflexivity|].
  split; [apply queryFn_oldestOffset|].
  split; [apply step_writes_newOffset|].
  vm_compute. repeat split.
Qed.

(** C10.  There is a pagination cycle whose fetch returns a non-empty
    page in which every trade is below the threshold or already in the
    store, and which returns 0 while it moves the cursor up by 500: a zero
    count tells neither that the page was empty nor that the cursor
    stayed. *)
Theorem loadMore_zero_count_advances :
  exists (minValue : float) (fetchRecentTrades : Z -> Z -> FetchResult)
         (st : WhaleStore) (page : list RawTrade),
    fetchRecentTrades 500%Z (oldestOffset st + 500)%Z = Resolved page /\
    page <> [] /\
    Forall (fun trade =>
              tradeToWhaleAlert trade minValue = None \/
              exists a, tradeToWhaleAlert trade minValue = Some a /\
                        has (Alert.id a) (alerts st) = true) page /\
    let run := loadMore minValue false fetchRecentTrades st in
    foundCount run = 0 /\
    oldestOffset (run_store run) = (oldestOffset st + 500)%Z /\
    alerts (run_store run) = alerts st.
Proof.
  pose (st := fst (queryFn 1000 (Resolved [Sample.big]) 0 whaleStore)).
  pose (page := [Sample.small; Sample.big]).
  assert (Hall : Forall (fun trade =>
              tradeToWhaleAlert trade 1000 = None \/
              exists a, tradeToWhaleAlert trade 1000 = Some a /\
                        has (Alert.id a) (alerts st) = true) page).
  { constructor; [left; reflexivity|].
    constructor; [|constructor].
    right. eexists. split; reflexivity. }
  exists 1000%float, (fun _ _ => Resolved page), st, page.
  split; [reflexivity|]. split; [discriminate|]. split; [exact Hall|].
  rewrite (loadMore_nothing_new 1000 (fun _ _ => Resolved page) st page
             eq_refl ltac:(discriminate) Hall).
  repeat split.
Qed.

End PaginationClaims.

(** * Worked examples *)

Section Examples.
Existing Instance Sample.printer.
Local Open Scope string_scope.

Lemma tradeToWhaleAlert_threshold_witness :
  tradeToWhaleAlert Sample.small 1000 = None /\
  exists alert, tradeToWhaleAlert Sample.big 1000 = Some alert /\
                Alert.value alert = 1200%float.
Proof.
  split.
  - exact (proj1 (tradeToWhaleAlert_threshold Sample.small 1000) eq_refl).
  - exact (proj2 (tradeToWhaleAlert_threshold Sample.big 1000) eq_refl).
Defined.

Lemma alert_id_derivation_witness :
  Alert.id Sample.bigAlert = "0xbeef" /\
  Alert.id Sample.unhashedAlert = "0xa3-1700000010-0xc2-4000".
Proof.
  split.
  - apply (proj1 (alert_id_derivation Sample.big 1000 Sample.bigAlert eq_refl));
      [reflexivity | discriminate].
  - assert (E : tradeToWhaleAlert Sample.unhashed 1000
                = Some Sample.unhashedAlert) by (vm_compute; reflexivity).
    apply (proj2 (alert_id_derivation Sample.unhashed 1000
                    Sample.unhashedAlert E)).
    right. reflexivity.
Defined.

(** C9 as first stated fails: a whale trade whose transaction hash is
    present but empty gets a synthesized identifier, not its hash. *)
Lemma alert_id_empty_hash_counterexample :
  tradeToWhaleAlert Sample.unhashed 1000 = Some Sample.unhashedAlert /\
  Trade.transactionHash Sample.unhashed = Some "" /\
  Alert.id Sample.unhashedAlert = "0xa3-1700000010-0xc2-4000" /\
  Alert.id Sample.unhashedAlert <> "".
Proof. repeat split. discriminate. Qed.

Lemma merge_idempotent_append_only_witness :
  merge (Some Sample.bigAlert) (alerts Sample.refreshedStore, 2)
  = (alerts Sample.refreshedStore, 2).
Proof.
  exact (proj1 (merge_idempotent_append_only
                  (alerts Sample.refreshedStore) 2 Sample.bigAlert) eq_refl).
Defined.

Lemma snapshot_sorted_witness :
  queryFn 1000 (Resolved [Sample.big; Sample.unhashed]) 17 whaleStore
  = (Sample.refreshedStore, Resolved Sample.refreshedData) /\
  forall l1 a l2 b l3,
    data_alerts Sample.refreshedData = (l1 ++ a :: l2 ++ b :: l3)%list ->
    (Alert.timestamp a >= Alert.timestamp b)%Z.
Proof.
  assert (E : queryFn 1000 (Resolved [Sample.big; Sample.unhashed]) 17
                      whaleStore
              = (Sample.refreshedStore, Resolved Sample.refreshedData))
    by (vm_compute; reflexivity).
  split; [exact E|].
  apply (snapshot_sorted 1000 (Resolved [Sample.big; Sample.unhashed]) 17
           whaleStore Sample.refreshedStore Sample.refreshedData E).
Defined.

Lemma zero_count_notifications_witness :
  snd (refreshCycle Timer (Resolved (mkData [] 0 17)) Sample.idle) = [] /\
  snd (refreshCycle ManualRefresh (Resolved (mkData [] 0 17)) Sample.idle)
  = [mkToast "No new trades yet" info].
Proof.
  destruct (zero_count_notifications (mkData [] 0 17) Sample.idle eq_refl)
    as (T & _ & M & _).
  split; [exact T | exact M].
Defined.

Lemma loadMore_guard_is_stale_witness :
  let h := fst (exec 1000 [ClickLoadMore] mount) in
  isLoadingMore h = true /\
  snd (step 1000 h ClickLoadMore) = [Fetch 500 500].
Proof.
  destruct (proj1 (proj2 (proj2 (loadMore_guard_is_stale 1000)))
              (fst (exec 1000 [ClickLoadMore] mount)) eq_refl)
    as (_ & _ & _ & F).
  split; [reflexivity | exact F].
Defined.

Lemma loadMore_empty_page_witness :
  let run := loadMore 1000 false (fun _ _ => Resolved [])
                      Sample.refreshedStore in
  foundCount run = 0 /\
  oldestOffset (run_store run) = 0%Z /\
  alerts (run_store run) = alerts Sample.refreshedStore.
Proof.
  destruct (loadMore_empty_page 1000 false (fun _ _ => Resolved [])
              Sample.refreshedStore eq_refl) as (F & O & A & _).
  split; [exact F|]. split; [exact O | exact A].
Defined.

(** The failing manual refresh of C4, evaluated: with no earlier data a
    network error ends in the toast of an uneventful refresh. *)
Example failed_manual_refresh_toast :
  handleRefresh
    (snd (manualRefresh 1000 (Rejected "Network Error") 17 whaleStore
                        {| data := None; error := None |}))
  = [mkToast "No new trades yet" info].
Proof. reflexivity. Qed.

(** The pagination cycle of C10, evaluated: a page of a small trade and
    of a whale trade the store already holds. *)
Example zero_count_page :
  loadMore 1000 false (fun _ _ => Resolved [Sample.small; Sample.big])
           Sample.refreshedStore
  = mkRun {| alerts := alerts Sample.refreshedStore; oldestOffset := 500 |}
          0 [(500, 500)%Z] true.
Proof. vm_compute. reflexivity. Qed.

End Examples.

(** * Further properties *)

(** ** Keys and contents of the store *)

Section MapKeys.
Variable V : Type.
Implicit Types (m : Map V) (k : string) (v : V).

Lemma has_In k m : has k m = true <-> In k (map fst m).
Proof.
  induction m as [|[k' v'] m IH]; simpl; [split; [discriminate | tauto]|].
  destruct (String.eqb_spec k' k) as [-> | Hne].
  - split; auto.
  - rewrite IH. split; [auto | intros [E | H]; [contradiction | exact H]].
Qed.

Lemma has_false_In k m : has k m = false <-> ~ In k (map fst m).
Proof.
  rewrite <- has_In. destruct (has k m); split; congruence.
Qed.

Lemma get_set_same k v m : get k (set k v m) = Some v.
Proof.
  induction m as [|[k' v'] m IH]; simpl.
  - now rewrite String.eqb_refl.
  - destruct (k' =? k)%string eqn:E; simpl; rewrite E; [reflexivity | exact IH].
Qed.

Lemma get_set_other k k' v m :
  k' <> k -> get k' (set k v m) = get k' m.
Proof.
  intros Hne. induction m as [|[k0 v0] m IH]; simpl.
  - destruct (String.eqb_spec k k'); [congruence | reflexivity].
  - destruct (String.eqb_spec k0 k) as [-> | Hk]; simpl.
    + destruct (String.eqb_spec k k'); [congruence | reflexivity].
    + destruct (k0 =? k')%string; [reflexivity | exact IH].
Qed.

Lemma set_present_keys k v m :
  has k m = true -> map fst (set k v m) = map fst m.
Proof.
  induction m as [|[k' v'] m IH]; simpl; [discriminate|].
  destruct (k' =? k)%string; simpl; [reflexivity|].
  intros H. now rewrite IH.
Qed.

Lemma get_None_has k m : get k m = None <-> has k m = false.
Proof.
  induction m as [|[k' v'] m IH]; simpl; [tauto|].
  destruct (k' =? k)%string; [split; discriminate | exact IH].
Qed.
End MapKeys.

Section StoreInvariants.
Context {printer : NumberToString}.
Variable minValue : float.

Lemma tradeToWhaleAlert_whale trade a :
  tradeToWhaleAlert trade minValue = Some a -> whale minValue a.
Proof.
  unfold tradeToWhaleAlert, whale.
  destruct (_ <? _)%float eqn:E; [discriminate|].
  intros [= <-]. simpl. repeat split.
  - exact E.
  - destruct (Trade.title trade) as [t|]; simpl; [|discriminate].
    destruct (String.eqb_spec t ""); [discriminate | assumption].
  - destruct (Trade.outcome trade) as [o|]; simpl; [|discriminate].
    destruct (String.eqb_spec o ""); [discriminate | assumption].
  - unfold or_null.
    destruct (Trade.name trade) as [n|], (Trade.pseudonym trade) as [p|];
      repeat match goal with
        | |- context [(?s =? "")%string] => destruct (String.eqb_spec s "")
        end; congruence.
Qed.



Lemma merge_entries trade (acc : Map WhaleAlert * nat) :
  NoDup (map fst (fst acc)) -> Forall (entry_ok minValue) (fst acc) ->
  NoDup (map fst (fst (merge (tradeToWhaleAlert trade minValue) acc))) /\
  Forall (entry_ok minValue) (fst (merge (tradeToWhaleAlert trade minValue) acc)).
Proof.
  destruct acc as [m count]. simpl. intros Hk He.
  destruct (tradeToWhaleAlert trade minValue) as [a|] eqn:Ea; [|now split].
  destruct (has (Alert.id a) m) eqn:Eh.
  - rewrite merge_present by exact Eh. now split.
  - rewrite merge_absent by exact Eh. simpl. split.
    + rewrite map_app. simpl.
      apply NoDup_app; [exact Hk | repeat constructor; intros [] |].
      intros k Hin [<- | []]. apply has_false_In in Eh. contradiction.
    + apply Forall_app. split; [exact He|].
      constructor; [|constructor].
      split; [reflexivity | now apply tradeToWhaleAlert_whale with trade].
Qed.

Lemma mergeTrades_entries trades m :
  NoDup (map fst m) -> Forall (entry_ok minValue) m ->
  NoDup (map fst (fst (mergeTrades minValue trades m))) /\
  Forall (entry_ok minValue) (fst (mergeTrades minValue trades m)).
Proof.
  unfold mergeTrades. generalize 0 as count. revert m.
  induction trades as [|t trades IH]; intros m count Hk He; simpl;
    [now split|].
  destruct (merge_entries t (m, count) Hk He) as [Hk' He'].
  specialize (IH _ (snd (merge (tradeToWhaleAlert t minValue) (m, count)))
                 Hk' He').
  rewrite <- surjective_pairing in IH. exact IH.
Qed.

Lemma step_entries h e :
  NoDup (map fst (alerts (store h))) -> Forall (entry_ok minValue) (alerts (store h)) ->
  NoDup (map fst (alerts (store (fst (step minValue h e))))) /\
  Forall (entry_ok minValue) (alerts (store (fst (step minValue h e)))).
Proof.
  intros Hk He.
  destruct e as [| fetched now | | i fetched | i]; simpl.
  - now split.
  - destruct fetched as [trades|]; simpl; [|now split].
    now apply mergeTrades_entries.
  - destruct (loadMore_enter (captured h) (store h)); now split.
  - destruct (nth_error (calls h) i) as [[o|f]|]; try now split.
    destruct fetched as [[|t trades]|]; simpl; try now split.
    now apply mergeTrades_entries.
  - destruct (nth_error (calls h) i) as [[o|f]|]; now split.
Qed.

Lemma exec_entries events :
  forall h,
    NoDup (map fst (alerts (store h))) -> Forall (entry_ok minValue) (alerts (store h)) ->
    NoDup (map fst (alerts (store (fst (exec minValue events h))))) /\
    Forall (entry_ok minValue) (alerts (store (fst (exec minValue events h)))).
Proof.
  induction events as [|e events IH]; intros h Hk He; simpl; [now split|].
  destruct (step_entries h e Hk He) as [Hk' He'].
  destruct (step minValue h e) as [h' o]. simpl in Hk', He'.
  specialize (IH h' Hk' He').
  now destruct (exec minValue events h') as [h'' o'].
Qed.

Lemma keyed_ids (m : Map WhaleAlert) :
  Forall (entry_ok minValue) m -> map Alert.id (values m) = map fst m.
Proof.
  induction 1 as [|[k a] m [Hk _] _ IH]; simpl; [reflexivity|].
  simpl in Hk. now rewrite IH, Hk.
Qed.

End StoreInvariants.

Section StoreContents.
Context {printer : NumberToString}.

(** X1.  In every state the hook reaches, no key of the store occurs
    twice and every alert sits under its own identifier; so the alerts of
    the snapshot, which the list renders with [alert.id] as key, have
    pairwise distinct identifiers. *)
Theorem store_keys_unique (minValue : float) (events : list Event) :
  let m := alerts (store (fst (exec minValue events mount))) in
  NoDup (map fst m) /\
  Forall (fun kv => fst kv = Alert.id (snd kv)) m /\
  NoDup (map Alert.id (snapshot m)).
Proof.
  intros m.
  destruct (exec_entries minValue events mount) as [Hk He];
    [constructor | constructor |]. fold m in Hk, He.
  split; [exact Hk|]. split.
  - eapply Forall_impl; [|exact He]. now intros kv [H _].
  - eapply Permutation_NoDup.
    + apply Permutation_map. symmetry. apply (sort_perm _ Alert.timestamp).
    + now rewrite (keyed_ids minValue m He).
Qed.

(** X2.  Every alert the classifier builds, and so every alert the store
    holds in any state the hook reaches under one threshold, has a value
    that is the product of its size and price and is not below the
    threshold, non-empty market and outcome labels, and a trader name that
    is either missing or non-empty. *)
Theorem stored_alerts_are_whales (minValue : float) :
  (forall trade a,
      tradeToWhaleAlert trade minValue = Some a -> whale minValue a) /\
  (forall events a,
      In a (values (alerts (store (fst (exec minValue events mount))))) ->
      whale minValue a).
Proof.
  split; [apply tradeToWhaleAlert_whale|].
  intros events a Hin.
  destruct (exec_entries minValue events mount) as [_ He];
    [constructor | constructor |].
  unfold values in Hin. apply in_map_iff in Hin as ([k a'] & <- & Hin).
  rewrite Forall_forall in He. now destruct (He _ Hin).
Qed.

Lemma merge_all_bounded (xs : list (option WhaleAlert))
  (acc : Map WhaleAlert * nat) :
  snd (fold_left (fun acc x => merge x acc) xs acc)
  <= snd acc + List.length xs.
Proof.
  revert acc. induction xs as [|x xs IH]; intros acc; simpl; [lia|].
  specialize (IH (merge x acc)).
  destruct (merge_extends x acc) as (s & _ & C & L). lia.
Qed.

Lemma mergeTrades_count minValue trades (m : Map WhaleAlert) :
  size (fst (mergeTrades minValue trades m))
  = size m + snd (mergeTrades minValue trades m) /\
  snd (mergeTrades minValue trades m) <= List.length trades.
Proof.
  split.
  - destruct (mergeTrades_extends minValue trades m) as (s & E & C).
    rewrite E, C. unfold size. apply length_app.
  - rewrite mergeTrades_fold.
    pose proof (merge_all_bounded
                  (map (fun trade => tradeToWhaleAlert trade minValue) trades)
                  (m, 0)) as H.
    rewrite length_map in H. exact H.
Qed.

Lemma snapshot_length (m : Map WhaleAlert) :
  List.length (snapshot m) = size m.
Proof.
  unfold snapshot, size.
  etransitivity;
    [apply Permutation_length, (sort_perm _ Alert.timestamp) | apply length_map].
Qed.

(** X3.  The count a cycle reports is the number of entries it added to
    the store, and is at most the number of trades of the page: for
    [newCount] of a refresh cycle, whose alert list is as long as the store
    is large, and for [foundCount] of a pagination cycle, which is 0 when
    the fetch fails. *)
Theorem counts_measure_growth (minValue : float) :
  (forall trades now st,
      let st' := fst (queryFn minValue (Resolved trades) now st) in
      exists d,
        snd (queryFn minValue (Resolved trades) now st) = Resolved d /\
        size (alerts st') = size (alerts st) + newCount d /\
        newCount d <= List.length trades /\
        List.length (data_alerts d) = size (alerts st')) /\
  (forall isLoadingMore fetchRecentTrades st,
      let run := loadMore minValue isLoadingMore fetchRecentTrades st in
      size (alerts (run_store run)) = size (alerts st) + foundCount run /\
      match fetchRecentTrades 500%Z (oldestOffset st + 500)%Z with
      | Resolved page => foundCount run <= List.length page
      | Rejected _ => foundCount run = 0
      end).
Proof.
  split.
  - intros trades now st st'. simpl. eexists. split; [reflexivity|]. simpl.
    destruct (mergeTrades_count minValue trades (alerts st)) as [G B].
    split; [exact G|]. split; [exact B | apply snapshot_length].
  - intros isLoadingMore fetchRecentTrades st run. subst run.
    unfold loadMore, loadMore_enter.
    destruct isLoadingMore; simpl.
    + split; [lia|]. destruct (fetchRecentTrades _ _); [lia | reflexivity].
    + unfold loadMore_resume.
      destruct (fetchRecentTrades 500%Z (oldestOffset st + 500)%Z)
        as [[|t page]|]; simpl; try (split; [lia | try lia; reflexivity]).
      destruct (mergeTrades_count minValue (t :: page) (alerts st)) as [G B].
      split; [exact G | exact B].
Qed.

Lemma merge_has_after (a : WhaleAlert) (acc : Map WhaleAlert * nat) :
  has (Alert.id a) (fst (merge (Some a) acc)) = true.
Proof.
  destruct acc as [m count]. destruct (has (Alert.id a) m) eqn:E.
  - now rewrite merge_present.
  - rewrite merge_absent by exact E. simpl.
    rewrite has_app, E. simpl. now rewrite String.eqb_refl.
Qed.

Lemma merge_all_has (xs : list (option WhaleAlert))
  (acc : Map WhaleAlert * nat) (a : WhaleAlert) :
  In (Some a) xs ->
  has (Alert.id a) (fst (fold_left (fun acc x => merge x acc) xs acc)) = true.
Proof.
  revert acc. induction xs as [|x xs IH]; intros acc; simpl; [tauto|].
  intros [-> | Hin]; [|now apply IH].
  destruct (merge_all_extends xs (merge (Some a) acc)) as (s & E & _).
  rewrite E, has_app, merge_has_after. reflexivity.
Qed.

(** X4.  A refresh cycle that fetches the very page the previous one
    fetched reports no new trade and leaves the store as it was. *)
Theorem refresh_idempotent (minValue : float) (trades : list RawTrade)
  (now now' : Z) (st : WhaleStore) :
  let st1 := fst (queryFn minValue (Resolved trades) now st) in
  queryFn minValue (Resolved trades) now' st1
  = (st1, Resolved {| data_alerts := snapshot (alerts st1);
                      newCount := 0;
                      updatedAt := now' |}).
Proof.
  simpl. unfold queryFn. simpl.
  set (m1 := fst (mergeTrades minValue trades (alerts st))).
  assert (E : mergeTrades minValue trades m1 = (m1, 0)).
  { apply mergeTrades_nothing_new. apply Forall_forall. intros t Ht.
    destruct (tradeToWhaleAlert t minValue) as [a|] eqn:Ea; [right | now left].
    exists a. split; [reflexivity|]. subst m1.
    rewrite mergeTrades_fold. apply merge_all_has.
    apply in_map_iff. now exists t. }
  now rewrite E.
Qed.

End StoreContents.

(** ** Order of the snapshot *)

Section SnapshotOrder.
Variable A : Type.
Variable key : A -> Z.

(** An element inserted by the sort of the hook only passes elements with
    a strictly larger key. *)
Lemma insert_filter_key (t : Z) (x : A) (l : list A) :
  filter (fun a => (key a =? t)%Z)
         (insert (fun a b => (key b - key a)%Z) x l)
  = filter (fun a => (key a =? t)%Z) (x :: l).
Proof.
  induction l as [|y l IH]; simpl; [reflexivity|].
  destruct (key y - key x <=? 0)%Z eqn:E; simpl; [reflexivity|].
  apply Z.leb_gt in E. rewrite IH. simpl.
  destruct (Z.eqb_spec (key x) t), (Z.eqb_spec (key y) t);
    try reflexivity; lia.
Qed.

Lemma sort_filter_key (t : Z) (l : list A) :
  filter (fun a => (key a =? t)%Z) (sort (fun a b => (key b - key a)%Z) l)
  = filter (fun a => (key a =? t)%Z) l.
Proof.
  induction l as [|x l IH]; simpl; [reflexivity|].
  rewrite insert_filter_key. simpl. now rewrite IH.
Qed.

(** The last element of a list sorted by descending key has the least
    key. *)
Lemma sorted_last_least (l : list A) (x : A) :
  StronglySorted (fun a b => (key a >= key b)%Z) l ->
  nth_error l (List.length l - 1) = Some x ->
  Forall (fun a => (key x <= key a)%Z) l.
Proof.
  induction 1 as [|y l Hl IH Hy]; simpl; [discriminate|].
  rewrite Nat.sub_0_r. destruct l as [|z l].
  - simpl. intros [= <-]. constructor; [lia | constructor].
  - simpl. intros Hx.
    assert (Hx' : nth_error (z :: l) (List.length (z :: l) - 1) = Some x)
      by (simpl; now rewrite Nat.sub_0_r).
    specialize (IH Hx'). constructor; [|exact IH].
    apply nth_error_In in Hx. rewrite Forall_forall in Hy.
    specialize (Hy x Hx). lia.
Qed.
End SnapshotOrder.

Section Oldest.

(** X5.  Alerts that share a timestamp appear in the snapshot in the order
    in which they entered the store. *)
Theorem snapshot_stable (m : Map WhaleAlert) (t : Z) :
  filter (fun a => (Alert.timestamp a =? t)%Z) (snapshot m)
  = filter (fun a => (Alert.timestamp a =? t)%Z) (values m).
Proof. apply sort_filter_key. Qed.

(** The last alert of a snapshot: missing exactly when the map is empty,
    and otherwise the timestamp of a value that no value is older than. *)
Lemma oldestTimestamp_snapshot (m : Map WhaleAlert) :
  (oldestTimestamp (snapshot m) = None <-> m = []) /\
  forall t,
    oldestTimestamp (snapshot m) = Some t ->
    (exists a, In a (values m) /\ Alert.timestamp a = t) /\
    forall a, In a (values m) -> (t <= Alert.timestamp a)%Z.
Proof.
  unfold oldestTimestamp. rewrite snapshot_length.
  pose proof (snapshot_length m) as L.
  pose proof (sort_perm _ Alert.timestamp (values m)) as P. fold (snapshot m) in P.
  pose proof (sort_sorted _ Alert.timestamp (values m)) as S.
  fold (snapshot m) in S.
  destruct m as [|kv m]; [simpl; split; [tauto | discriminate]|].
  replace (0 <? size (kv :: m))%nat with true by reflexivity.
  rewrite <- L.
  destruct (nth_error (snapshot (kv :: m)) (List.length (snapshot (kv :: m)) - 1))
    as [x|] eqn:Ex.
  - cbn [option_map]. split; [split; discriminate|].
    intros t [= <-]. split.
    + exists x. split; [|reflexivity].
      eapply Permutation_in; [exact P | eapply nth_error_In; exact Ex].
    + intros a Ha.
      pose proof (sorted_last_least _ Alert.timestamp _ x S Ex) as F.
      rewrite Forall_forall in F. apply F.
      eapply Permutation_in; [symmetry; exact P | exact Ha].
  - exfalso. apply nth_error_None in Ex. rewrite L in Ex.
    unfold size in Ex. simpl in Ex. lia.
Qed.

(** X6.  The hook takes [oldestTimestamp] from the alerts of the query
    data, that is from the last refresh cycle that succeeded, not from the
    store.  It is missing when there is no data yet, and when that cycle
    left the store empty; otherwise it is the timestamp of one of the
    alerts the hook returns, none of which is older.  The alerts the hook
    returns are those of the store as that cycle left it. *)
Theorem oldestTimestamp_least {printer : NumberToString} (minValue : float)
  (trades : list RawTrade) (now : Z) (st : WhaleStore) (query : QueryResult) :
  (data query = None -> oldestTimestamp (returnedAlerts query) = None) /\
  forall d,
    data query = Some d ->
    snd (queryFn minValue (Resolved trades) now st) = Resolved d ->
    let left := alerts (fst (queryFn minValue (Resolved trades) now st)) in
    Permutation (returnedAlerts query) (values left) /\
    (oldestTimestamp (returnedAlerts query) = None <-> left = []) /\
    forall t,
      oldestTimestamp (returnedAlerts query) = Some t ->
      (exists a, In a (returnedAlerts query) /\ Alert.timestamp a = t) /\
      forall a, In a (returnedAlerts query) -> (t <= Alert.timestamp a)%Z.
Proof.
  unfold returnedAlerts. split; [now intros ->|].
  intros d -> Hd. simpl in Hd. injection Hd as <-. simpl.
  set (m := fst (mergeTrades minValue trades (alerts st))).
  pose proof (sort_perm _ Alert.timestamp (values m)) as P.
  fold (snapshot m) in P.
  destruct (oldestTimestamp_snapshot m) as [E L].
  split; [exact P|]. split; [exact E|].
  intros t Ht. destruct (L t Ht) as [(a & Ha & Hat) Hle]. split.
  - exists a. split; [|exact Hat].
    eapply Permutation_in; [symmetry; exact P | exact Ha].
  - intros a' Ha'. apply Hle.
    eapply Permutation_in; [exact P | exact Ha'].
Qed.

End Oldest.

(** ** Failure and release of the pagination cycle *)

Section PaginationMore.
Context {printer : NumberToString}.
Variable minValue : float.

(** X7.  A pagination cycle whose fetch fails swallows the failure: it
    returns 0 and leaves the store and the cursor alone, exactly as on an
    empty page, so that [handleLoadMore] shows the toast of the end of the
    range; and the suspended call lowers the guard when it resumes. *)
Theorem loadMore_swallows_fetch_error
  (fetchRecentTrades : Z -> Z -> FetchResult) (st : WhaleStore) (e : string) :
  fetchRecentTrades 500%Z (oldestOffset st + 500)%Z = Rejected e ->
  loadMore minValue false fetchRecentTrades st
  = mkRun st 0 [(500, oldestOffset st + 500)%Z] false /\
  loadMore minValue false fetchRecentTrades st
  = loadMore minValue false (fun _ _ => Resolved []) st /\
  handleLoadMore (foundCount (loadMore minValue false fetchRecentTrades st))
  = [mkToast "No more trades in API range" info] /\
  forall h i newOffset,
    nth_error (calls h) i = Some (AwaitFetch newOffset) ->
    store (fst (step minValue h (FetchSettled i (Rejected e)))) = store h /\
    isLoadingMore (fst (step minValue h (FetchSettled i (Rejected e)))) = false /\
    snd (step minValue h (FetchSettled i (Rejected e))) = [Returns 0].
Proof.
  intros Hf. unfold loadMore, loadMore_enter. rewrite Hf. simpl.
  repeat split; intros; simpl;
    match goal with Hc : nth_error _ _ = _ |- _ => rewrite Hc end;
    reflexivity.
Qed.

Lemma mount_guard_released : guard_released mount.
Proof. intros _. reflexivity. Qed.

Lemma replace_nth_not_nil (A : Type) (i : nat) (l : list A) (x y : A) :
  nth_error l i = Some x -> replace_nth i y l <> [].
Proof.
  revert i. induction l as [|z l IH]; intros [|i]; simpl; discriminate.
Qed.

(** Whatever the run: a call that raises the guard is suspended, and the
    end of a call lowers it. *)
Lemma step_guard_released h e :
  guard_released h -> guard_released (fst (step minValue h e)).
Proof.
  unfold guard_released. intros G.
  destruct e as [| fetched now | | i fetched | i]; simpl.
  - exact G.
  - destruct fetched; exact G.
  - destruct (loadMore_enter (captured h) (store h)); simpl; [|exact G].
    intros H. now apply app_eq_nil in H as [_ H].
  - destruct (nth_error (calls h) i) as [[o|f]|] eqn:E; try exact G.
    destruct fetched as [[|t trades]|]; simpl; try reflexivity.
    intros H. now apply (replace_nth_not_nil _ _ _ _ _ E) in H.
  - destruct (nth_error (calls h) i) as [[o|f]|] eqn:E; try exact G.
    reflexivity.
Qed.

Lemma exec_guard_released events :
  forall h, guard_released h ->
            guard_released (fst (exec minValue events h)).
Proof.
  induction events as [|e events IH]; intros h G; simpl; [exact G|].
  pose proof (step_guard_released h e G) as G'.
  destruct (step minValue h e) as [h' o]. simpl in G'.
  specialize (IH h' G').
  now destruct (exec minValue events h') as [h'' o'].
Qed.

(** X8.  The guard never sticks: in every state the hook reaches in which
    no call of [loadMore] is suspended, the guard is down, and after a
    render a click issues the fetch of the page right after the cursor. *)
Theorem pagination_guard_released (events : list Event) :
  let h := fst (exec minValue events mount) in
  calls h = [] ->
  isLoadingMore h = false /\
  snd (step minValue (fst (step minValue h Render)) ClickLoadMore)
  = [Fetch 500 (oldestOffset (store h) + 500)].
Proof.
  intros h Hc.
  assert (G : isLoadingMore h = false)
    by (apply (exec_guard_released events mount);
        [apply mount_guard_released | exact Hc]).
  split; [exact G|]. simpl. rewrite G. reflexivity.
Qed.

Lemma separated_prefix events events' :
  forall rendered,
    separated rendered (events ++ events') = true ->
    separated rendered events = true.
Proof.
  induction events as [|e events IH]; intros rendered; [reflexivity|].
  destruct e; simpl; try apply IH.
  intros H. apply andb_prop in H as [-> H]. simpl. now apply IH in H.
Qed.

Lemma exec_oldestOffset_multiple events :
  forall rendered h,
    guarded rendered h -> separated rendered events = true ->
    (exists k : nat, oldestOffset (store h) = (500 * Z.of_nat k)%Z) ->
    exists k : nat,
      oldestOffset (store (fst (exec minValue events h))) = (500 * Z.of_nat k)%Z.
Proof.
  induction events as [|e events IH]; intros rendered h G Sep Hk; simpl;
    [exact Hk|].
  apply separated_step in Sep as [Hc Sep].
  pose proof (step_guarded minValue rendered h e G Hc) as G'.
  pose proof (step_oldestOffset minValue h e (proj1 G)) as Hs.
  destruct (step minValue h e) as [h' o]. cbn [fst] in *.
  assert (Hk' : exists k : nat, oldestOffset (store h') = (500 * Z.of_nat k)%Z).
  { destruct Hk as [k Hk], Hs as [Hs | [Hs _]].
    - exists k. lia.
    - exists (S k). rewrite Nat2Z.inj_succ. lia. }
  specialize (IH _ h' G' Sep Hk').
  destruct (exec minValue events h') as [h'' o']. exact IH.
Qed.

(** X20.  In a run from the mounted hook in which a render separates any
    two calls of [loadMore], at most one call is suspended and at most one
    pagination fetch is in flight; while a call is suspended the guard is
    up, and a further call made after a render returns 0, fetches nothing
    and changes nothing. *)
Theorem separated_single_flight (events : list Event) :
  separated true events = true ->
  let h := fst (exec minValue events mount) in
  List.length (calls h) <= 1 /\
  inFlight h <= 1 /\
  (calls h <> [] ->
   isLoadingMore h = true /\
   step minValue (fst (step minValue h Render)) ClickLoadMore
   = (fst (step minValue h Render), [Returns 0])).
Proof.
  intros S h.
  destruct (exec_guarded minValue events [] true mount mount_guarded)
    as (r & [Inv _] & _); [now rewrite app_nil_r|]. fold h in Inv.
  destruct (single_flight_calls h Inv) as (L & F & C).
  split; [exact L|]. split; [exact F|].
  intros Hne. split; [exact (C Hne)|].
  apply click_while_captured. simpl. exact (C Hne).
Qed.

(** X21.  In such a run the cursor never decreases and is always a
    multiple of 500, and whatever event comes next either leaves it or,
    when a pagination fetch settles with a page that is not empty, raises
    it by exactly 500. *)
Theorem separated_oldestOffset_monotone (events events' : list Event) :
  separated true (events ++ events') = true ->
  let h := fst (exec minValue events mount) in
  (oldestOffset (store h)
   <= oldestOffset (store (fst (exec minValue (events ++ events') mount))))%Z /\
  (exists k : nat, oldestOffset (store h) = (500 * Z.of_nat k)%Z) /\
  (forall e,
      oldestOffset (store (fst (step minValue h e))) = oldestOffset (store h) \/
      oldestOffset (store (fst (step minValue h e)))
      = (oldestOffset (store h) + 500)%Z /\
      exists i fetched, e = FetchSettled i fetched).
Proof.
  intros S h.
  destruct (exec_guarded minValue events events' true mount mount_guarded S)
    as (r & G & S'). fold h in G.
  split; [|split].
  - rewrite exec_app. fold h. exact (exec_oldestOffset_le minValue events' r h G S').
  - apply (exec_oldestOffset_multiple events true mount mount_guarded).
    + exact (separated_prefix events events' true S).
    + exists 0. reflexivity.
  - intros e. exact (step_oldestOffset minValue h e (proj1 G)).
Qed.

End PaginationMore.

(** ** Toasts of the refresh cycles *)

Section Notifications.

Lemma deps_eqb_eq (a b : option Z * bool) : deps_eqb a b = true -> a = b.
Proof.
  destruct a as [[x|] p], b as [[y|] q]; unfold deps_eqb; simpl;
    intros H; try discriminate.
  - apply andb_prop in H as [H1 H2].
    apply Z.eqb_eq in H1. apply Bool.eqb_prop in H2. now subst.
  - apply Bool.eqb_prop in H. now subst.
Qed.

Lemma deps_eqb_refl (a : option Z * bool) : deps_eqb a a = true.
Proof.
  destruct a as [[x|] p]; unfold deps_eqb; simpl;
    rewrite ?Z.eqb_refl, Bool.eqb_reflx; reflexivity.
Qed.

(** After a render the component is at rest. *)
Lemma render_at_rest (c : Component) : at_rest (fst (render c)).
Proof.
  unfold at_rest, render. cbv zeta.
  destruct (effectDeps c) as [old|] eqn:E; [|reflexivity].
  destruct (deps_eqb old _) eqn:D; [|reflexivity].
  simpl. rewrite E. f_equal. now apply deps_eqb_eq.
Qed.

(** A render of a component at rest does nothing. *)
Lemma render_of_rest (c : Component) : at_rest c -> render c = (c, []).
Proof.
  unfold at_rest, render. cbv zeta. intros ->.
  now rewrite deps_eqb_refl.
Qed.

(** A render runs the effect when a dependency differs from the recorded
    one. *)
Lemma render_runs (c : Component) (old : option Z * bool) :
  effectDeps c = Some old ->
  old <> (option_map updatedAt (data (query c)), isManualRefresh c) ->
  snd (render c)
  = autoRefreshEffect (Some handleAutoRefresh) (query c) (isManualRefresh c).
Proof.
  unfold render. cbv zeta. intros -> Hne.
  destruct (deps_eqb old _) eqn:D; [|reflexivity].
  apply deps_eqb_eq in D. contradiction.
Qed.

(** X9.  A manual refresh shows the toast of [handleRefresh] and then,
    when the flag is lowered, whatever [handleAutoRefresh] shows for the
    same count: a manual refresh that found new trades shows two success
    toasts, one that found none shows one toast. *)
Theorem manual_refresh_toasts (d : QueryData) (c : Component) :
  snd (refreshCycle ManualRefresh (Resolved d) c)
  = (handleRefresh (Resolved (newCount d)) ++ handleAutoRefresh (newCount d))%list /\
  (0 < newCount d ->
   exists first second,
     snd (refreshCycle ManualRefresh (Resolved d) c)
     = [mkToast first success; mkToast second success]).
Proof.
  assert (E : snd (refreshCycle ManualRefresh (Resolved d) c)
              = (handleRefresh (Resolved (newCount d))
                 ++ handleAutoRefresh (newCount d))%list).
  { unfold refreshCycle, refetch. simpl.
    destruct (render (setIsManualRefresh true c)) as [c1 t1] eqn:E1.
    destruct (render (setQuery {| data := Some d; error := None |} c1))
      as [c2 t2] eqn:E2.
    destruct (render (setIsManualRefresh false c2)) as [c3 t4] eqn:E4.
    assert (M1 : isManualRefresh c1 = true)
      by (change c1 with (fst (c1, t1)); rewrite <- E1;
          now rewrite render_isManualRefresh).
    assert (T1 : t1 = [])
      by (change t1 with (snd (c1, t1)); rewrite <- E1;
          apply render_silent; now left).
    assert (T2 : t2 = [])
      by (change t2 with (snd (c2, t2)); rewrite <- E2;
          apply render_silent; now left).
    assert (R2 : at_rest c2)
      by (change c2 with (fst (c2, t2)); rewrite <- E2; apply render_at_rest).
    assert (Q2 : query c2 = {| data := Some d; error := None |})
      by (change c2 with (fst (c2, t2)); rewrite <- E2;
          now rewrite render_query).
    assert (M2 : isManualRefresh c2 = true)
      by (change c2 with (fst (c2, t2)); rewrite <- E2;
          now rewrite render_isManualRefresh).
    assert (T4 : t4 = handleAutoRefresh (newCount d)).
    { change t4 with (snd (c3, t4)). rewrite <- E4.
      erewrite render_runs; [| exact R2 |].
      - simpl. rewrite Q2. reflexivity.
      - simpl. rewrite M2. congruence. }
    simpl. now rewrite T1, T2, T4. }
  split; [exact E|].
  intros Hn. rewrite E. unfold handleRefresh, handleAutoRefresh.
  apply Nat.ltb_lt in Hn. rewrite Hn. simpl. eauto.
Qed.

(** X10.  A timer or focus cycle that succeeds is silent while the
    manual flag is up; with the flag down, from a component at rest, and
    with a completion time that differs from the previous one, it shows
    what [handleAutoRefresh] shows for its count: one toast when it found
    new trades.  It leaves the component at rest. *)
Theorem auto_refresh_toasts (trigger : Trigger) (d : QueryData)
  (c : Component) :
  trigger <> ManualRefresh ->
  (isManualRefresh c = true ->
   snd (refreshCycle trigger (Resolved d) c) = []) /\
  (isManualRefresh c = false -> at_rest c ->
   option_map updatedAt (data (query c)) <> Some (updatedAt d) ->
   snd (refreshCycle trigger (Resolved d) c) = handleAutoRefresh (newCount d)) /\
  at_rest (fst (refreshCycle trigger (Resolved d) c)).
Proof.
  intros Ht.
  assert (E : refreshCycle trigger (Resolved d) c
              = render (setQuery {| data := Some d; error := None |} c))
    by (destruct trigger; [reflexivity | reflexivity | contradiction]).
  rewrite E. split; [|split].
  - intros M. apply render_silent. now left.
  - intros M R Hne. erewrite render_runs; [| exact R |].
    + simpl. now rewrite M.
    + simpl. congruence.
  - apply render_at_rest.
Qed.

(** X11.  A timer or focus cycle whose fetch fails is silent: from a
    component at rest it shows no toast and keeps the data, and so the
    alerts on display, of the last successful cycle; only the error field
    of the query changes. *)
Theorem failed_auto_refresh_silent (trigger : Trigger) (e : string)
  (c : Component) :
  trigger <> ManualRefresh -> at_rest c ->
  refreshCycle trigger (Rejected e) c
  = (setQuery {| data := data (query c); error := Some e |} c, []).
Proof.
  intros Ht R.
  assert (E : refreshCycle trigger (Rejected e) c
              = render (setQuery {| data := data (query c);
                                    error := Some e |} c))
    by (destruct trigger; [reflexivity | reflexivity | contradiction]).
  rewrite E. apply render_of_rest. exact R.
Qed.

End Notifications.

(** ** Utilities of [App.tsx] *)

Section Strings.
Local Open Scope string_scope.

Lemma length_append (a b : string) :
  String.length (a ++ b) = String.length a + String.length b.
Proof. induction a as [|c a IH]; simpl; [reflexivity | now rewrite IH]. Qed.

Lemma substring_length (s : string) :
  forall n m, String.length (substring n m s) = Nat.min m (String.length s - n).
Proof.
  induction s as [|c s IH]; intros [|n] [|m]; simpl; try reflexivity.
  - now rewrite IH, Nat.sub_0_r.
  - apply IH.
  - apply IH.
Qed.

Lemma substring_prefix (p r : string) :
  substring 0 (String.length p) (p ++ r) = p.
Proof.
  induction p as [|c p IH]; simpl; [now destruct r | now rewrite IH].
Qed.

Lemma substring_skip (p q : string) :
  forall n m, substring (String.length p + n) m (p ++ q) = substring n m q.
Proof. induction p as [|c p IH]; intros n m; simpl; [reflexivity | apply IH]. Qed.

Lemma substring_whole (s : string) :
  forall m, String.length s <= m -> substring 0 m s = s.
Proof.
  induction s as [|c s IH]; intros [|m] H; simpl in *; try reflexivity; try lia.
  rewrite IH; [reflexivity | lia].
Qed.

(** The length of a shortened address. *)
Lemma formatAddress_length (address : string) :
  String.length (formatAddress address)
  = Nat.min 6 (String.length address) + 3 + Nat.min 4 (String.length address).
Proof.
  unfold formatAddress, String_slice, slice_index.
  set (len := String.length address).
  replace (0 <? 0)%Z with false by reflexivity.
  replace (6 <? 0)%Z with false by reflexivity.
  replace (-4 <? 0)%Z with true by reflexivity.
  replace (Z.to_nat (Z.min 0 (Z.of_nat len))) with 0 by lia.
  replace (Z.to_nat (Z.min 6 (Z.of_nat len) - Z.min 0 (Z.of_nat len)))
    with (Nat.min 6 len) by lia.
  replace (Z.to_nat (Z.max (Z.of_nat len + -4) 0)) with (len - 4) by lia.
  replace (Z.to_nat (Z.of_nat len - Z.max (Z.of_nat len + -4) 0))
    with (Nat.min 4 len) by lia.
  rewrite !length_append, !substring_length. fold len.
  change (String.length "...") with 3. lia.
Qed.

(** X12.  [formatAddress] returns at most 13 characters: up to 6 from the
    front, three dots, up to 4 from the back.  An address of 10 characters
    or more keeps its first 6 and last 4; one of 4 or fewer appears whole
    on both sides of the dots. *)
Theorem formatAddress_shape (address : string) :
  String.length (formatAddress address)
  = Nat.min 6 (String.length address) + 3 + Nat.min 4 (String.length address) /\
  (forall front middle back,
      address = front ++ middle ++ back ->
      String.length front = 6 -> String.length back = 4 ->
      formatAddress address = front ++ "..." ++ back) /\
  (String.length address <= 4 ->
   formatAddress address = address ++ "..." ++ address).
Proof.
  split; [apply formatAddress_length|].
  unfold formatAddress, String_slice, slice_index.
  set (len := String.length address).
  replace (0 <? 0)%Z with false by reflexivity.
  replace (6 <? 0)%Z with false by reflexivity.
  replace (-4 <? 0)%Z with true by reflexivity.
  replace (Z.to_nat (Z.min 0 (Z.of_nat len))) with 0 by lia.
  replace (Z.to_nat (Z.min 6 (Z.of_nat len) - Z.min 0 (Z.of_nat len)))
    with (Nat.min 6 len) by lia.
  replace (Z.to_nat (Z.max (Z.of_nat len + -4) 0)) with (len - 4) by lia.
  replace (Z.to_nat (Z.of_nat len - Z.max (Z.of_nat len + -4) 0))
    with (Nat.min 4 len) by lia.
  split.
  - intros front middle back E Hf Hb.
    assert (L : len = 6 + String.length middle + 4)
      by (unfold len; rewrite E, !length_append; lia).
    replace (Nat.min 6 len) with (String.length front) by lia.
    replace (len - 4) with (String.length front + (String.length middle + 0))
      by lia.
    replace (Nat.min 4 len) with (String.length back) by lia.
    rewrite E, substring_prefix, !substring_skip.
    now rewrite substring_whole by lia.
  - intros H.
    replace (len - 4) with 0 by lia.
    rewrite !substring_whole by (fold len; lia). reflexivity.
Qed.

End Strings.

Section Time.
Local Open Scope Z_scope.

Ltac split_units :=
  repeat match goal with
    | |- context [(?a <? ?b)] => destruct (Z.ltb_spec a b)
    end.

(** X14.  [formatTimeAgoShort] shows [now] below five seconds, also for
    a time in the future, and otherwise the elapsed time rounded down to
    whole seconds (5 to 59), whole minutes (1 to 59), or whole hours; hours
    are not capped, there is no day unit. *)
Theorem formatTimeAgoShort_rounds_down (now ms : Z) :
  let elapsed := (now - ms) / 1000 in
  (now - ms < 5000 -> formatTimeAgoShort now ms = "now"%string) /\
  (5000 <= now - ms ->
   exists n,
     (formatTimeAgoShort now ms = (integerToString n ++ "s ago")%string /\
      n = elapsed /\ 5 <= n < 60) \/
     (formatTimeAgoShort now ms = (integerToString n ++ "m ago")%string /\
      1 <= n < 60 /\ 60 * n <= elapsed < 60 * (n + 1)) \/
     (formatTimeAgoShort now ms = (integerToString n ++ "h ago")%string /\
      1 <= n /\ 3600 * n <= elapsed < 3600 * (n + 1))).
Proof.
  intros elapsed. unfold formatTimeAgoShort. fold elapsed.
  assert (E : 1000 * elapsed <= now - ms < 1000 * (elapsed + 1))
    by (unfold elapsed; Z.div_mod_to_equations; lia).
  split; intros H; split_units; try lia; try reflexivity.
  - exists elapsed. left. repeat split; lia.
  - exists (elapsed / 60). right; left.
    split; [reflexivity|]. Z.div_mod_to_equations. lia.
  - exists (elapsed / 3600). right; right.
    split; [reflexivity|]. Z.div_mod_to_equations. lia.
Qed.

End Time.

Section Theme.
Local Open Scope string_scope.

Lemma toggle_theme (s : ThemeState) :
  theme (toggle s) = if theme s =? "dark" then "light" else "dark".
Proof. reflexivity. Qed.

(** X15.  Whatever [localStorage] held at the start and however often the
    theme is toggled, the stored theme and the [dark] class follow the
    theme, and a reload restores the theme from the stored value.  After
    the first toggle the theme is [dark] or [light], even when the stored
    value was neither, and two more toggles give it back. *)
Theorem theme_persists (stored : option string) (dark : bool) (n : nat) :
  let s := Nat.iter n toggle (useTheme stored dark) in
  storedTheme s = Some (theme s) /\
  darkClass s = (theme s =? "dark") /\
  initialTheme (storedTheme s) = theme s /\
  (0 < n -> (theme s = "dark" \/ theme s = "light") /\
            theme (toggle (toggle s)) = theme s).
Proof.
  intros s.
  assert (Sync : storedTheme s = Some (theme s) /\
                 darkClass s = (theme s =? "dark"))
    by (subst s; destruct n; simpl; split; reflexivity).
  assert (Ne : theme s <> "").
  { subst s. destruct n; [|rewrite Nat.iter_succ].
    - simpl. unfold initialTheme, or_default.
      destruct stored as [t|]; [|discriminate].
      destruct (String.eqb_spec t ""); [discriminate | assumption].
    - rewrite toggle_theme.
      destruct (String.eqb (theme (Nat.iter n toggle (useTheme stored dark)))
                           "dark"); discriminate. }
  destruct Sync as [St Dk]. split; [exact St|]. split; [exact Dk|]. split.
  - rewrite St. unfold initialTheme, or_default.
    destruct (String.eqb_spec (theme s) ""); [contradiction | reflexivity].
  - intros Hn. destruct n as [|n]; [lia|]. subst s. rewrite Nat.iter_succ.
    rewrite !toggle_theme.
    destruct (String.eqb (theme (Nat.iter n toggle (useTheme stored dark)))
                         "dark"); simpl; auto.
Qed.

End Theme.

Section Toasts.

Lemma showToast_all (ts : list Toast) :
  forall s,
    toastIdRef (fold_left (fun s t => showToast t s) ts s)
    = toastIdRef s + List.length ts.
Proof.
  induction ts as [|t ts IH]; intros s; simpl; [lia|].
  rewrite IH. simpl. lia.
Qed.

(** X16.  Toasts do not queue: after any series of [showToast] calls the
    state holds the last toast only, under an identifier that counts all
    the calls made so far, so that every toast gets an identifier no
    earlier toast had. *)
Theorem showToast_keeps_last (ts : list Toast) (t : Toast) (s : ToastState) :
  let s' := fold_left (fun s t => showToast t s) (ts ++ [t]) s in
  shown s' = Some (toastIdRef s + List.length ts + 1, t) /\
  toastIdRef s' = toastIdRef s + List.length ts + 1 /\
  toastIdRef s < toastIdRef s'.
Proof.
  intros s'. subst s'. rewrite fold_left_app. simpl.
  rewrite showToast_all. repeat split; try lia.
  do 2 f_equal. lia.
Qed.

End Toasts.

(** ** [lib/api] *)

Section Traders.

Lemma tradesOf_app (w : string) (l l' : list RawTrade) :
  tradesOf w (l ++ l') = tradesOf w l ++ tradesOf w l'.
Proof. apply filter_app. Qed.

Lemma addTrader_grouped (seen : list RawTrade) (m : Map (list RawTrade))
  (t : RawTrade) :
  grouped seen m -> grouped (seen ++ [t]) (addTrader m t).
Proof.
  intros [Hk Hg]. unfold addTrader.
  remember (Trade.proxyWallet t) as w0 eqn:Ew0.
  assert (Ex : match get w0 m with Some l => l | None => [] end
               = tradesOf w0 seen).
  { rewrite Hg. now destruct (tradesOf w0 seen). }
  rewrite Ex. split.
  - destruct (has w0 m) eqn:Eh.
    + now rewrite set_present_keys.
    + rewrite set_fresh by exact Eh. rewrite map_app. simpl.
      apply NoDup_app; [exact Hk | repeat constructor; intros [] |].
      intros k Hin [<- | []]. apply has_false_In in Eh. contradiction.
  - intros w. rewrite tradesOf_app.
    replace (tradesOf w [t]) with (if (w0 =? w)%string then [t] else [])
      by (unfold tradesOf; simpl; now rewrite <- Ew0).
    destruct (String.eqb_spec w0 w) as [<- | Hne].
    + rewrite get_set_same. now destruct (tradesOf w0 seen).
    + rewrite get_set_other by (intros E; apply Hne; now symmetry).
      rewrite app_nil_r. apply Hg.
Qed.

Lemma fold_grouped (trades : list RawTrade) :
  forall seen m,
    grouped seen m -> grouped (seen ++ trades) (fold_left addTrader trades m).
Proof.
  induction trades as [|t trades IH]; intros seen m G; simpl.
  - now rewrite app_nil_r.
  - replace (seen ++ t :: trades) with ((seen ++ [t]) ++ trades)
      by (now rewrite <- app_assoc).
    apply IH, addTrader_grouped, G.
Qed.

Lemma set_concat (k : string) (g : list RawTrade) (t : RawTrade)
  (m : Map (list RawTrade)) :
  match get k m with Some l => l | None => [] end = g ->
  Permutation (List.concat (values (set k (g ++ [t]) m)))
              (t :: List.concat (values m)).
Proof.
  induction m as [|[k' l] m IH]; simpl.
  - intros <-. reflexivity.
  - destruct (k' =? k)%string; simpl.
    + intros ->. rewrite <- app_assoc. simpl.
      apply Permutation_sym, Permutation_middle.
    + intros E. rewrite (IH E).
      apply Permutation_sym, Permutation_middle.
Qed.

Lemma fold_concat (trades : list RawTrade) :
  forall m, Permutation (List.concat (values (fold_left addTrader trades m)))
                        (List.concat (values m) ++ trades).
Proof.
  induction trades as [|t trades IH]; intros m; simpl.
  - now rewrite app_nil_r.
  - rewrite IH. unfold addTrader. rewrite set_concat by reflexivity.
    simpl. apply Permutation_middle.
Qed.

(** X17.  [extractUniqueTraders] groups a page by wallet: the wallets of
    the result are pairwise distinct, a wallet maps to exactly its trades
    of the page in page order (and is absent when it has none), and the
    groups together hold each trade of the page once. *)
Theorem extractUniqueTraders_groups (trades : list RawTrade) :
  NoDup (map fst (extractUniqueTraders trades)) /\
  (forall w, get w (extractUniqueTraders trades)
             = match tradesOf w trades with
               | [] => None
               | g => Some g
               end) /\
  Permutation (List.concat (values (extractUniqueTraders trades))) trades.
Proof.
  destruct (fold_grouped trades [] []) as [Hk Hg].
  { split; [constructor | reflexivity]. }
  split; [exact Hk|]. split; [exact Hg|].
  apply (fold_concat trades []).
Qed.

End Traders.

Section Stats.

Lemma distinct_le (ids : list string) : distinct ids <= List.length ids.
Proof.
  unfold distinct. induction ids as [|i ids IH]; simpl; [lia|].
  destruct (in_dec string_dec i ids); simpl; lia.
Qed.

Lemma tally_winning (ps : list ClosedPosition) :
  forall acc,
    t_winning (fold_left tally ps acc)
    = t_winning acc
      + List.length
          (filter (fun p => (0 <? or_zero (Position.realizedPnl p))%float) ps).
Proof.
  induction ps as [|p ps IH]; intros acc; simpl; [lia|].
  rewrite IH. simpl.
  destruct (0 <? or_zero (Position.realizedPnl p))%float; simpl; lia.
Qed.

Lemma tally_biggest (ps : list ClosedPosition) :
  forall acc,
    t_biggest (fold_left tally ps acc) = t_biggest acc \/
    exists p, In p ps /\
              t_biggest (fold_left tally ps acc)
              = or_zero (Position.realizedPnl p) /\
              (0 <? or_zero (Position.realizedPnl p))%float = true.
Proof.
  induction ps as [|p ps IH]; intros acc; simpl; [now left|].
  destruct (IH (tally acc p)) as [E | (q & Hq & E & W)].
  - rewrite E. simpl.
    destruct (0 <? or_zero (Position.realizedPnl p))%float eqn:W; simpl;
      [|now left].
    destruct (t_biggest acc <? _)%float; [|now left].
    right. exists p. auto.
  - right. exists q. auto.
Qed.

(** X18.  The statistics of a list of closed positions count what they
    say: the positions and trades are the length of the list, the winning
    trades are the positions with a positive realized profit and so no more
    than the trades, the markets are the distinct market identifiers and so
    no more than the positions, the biggest win is 0 or the profit of a
    winning position, and an empty list gives a win rate of 0. *)
Theorem stats_counts (address : string) (ps : list ClosedPosition)
  (name pseudonym : option string) :
  let s := calculateStatsFromClosedPositions address ps name pseudonym in
  totalTrades s = List.length ps /\
  totalPositions s = List.length ps /\
  winningTrades s
  = List.length
      (filter (fun p => (0 <? or_zero (Position.realizedPnl p))%float) ps) /\
  winningTrades s <= totalTrades s /\
  uniqueMarkets s <= totalPositions s /\
  (forall p, In p ps -> 1 <= uniqueMarkets s) /\
  (biggestWin s = 0%float \/
   exists p, In p ps /\
             biggestWin s = or_zero (Position.realizedPnl p) /\
             (0 <? or_zero (Position.realizedPnl p))%float = true) /\
  (ps = [] -> winRate s = 0%float /\ winningTrades s = 0).
Proof.
  intros s. subst s. unfold calculateStatsFromClosedPositions. simpl.
  rewrite tally_winning. simpl.
  split; [reflexivity|]. split; [reflexivity|]. split; [reflexivity|].
  split; [apply filter_length_le|].
  split.
  { pose proof (distinct_le (map Position.conditionId ps)) as H.
    rewrite length_map in H. exact H. }
  split.
  { intros p Hp. unfold distinct.
    assert (Hin : In (Position.conditionId p)
                     (nodup string_dec (map Position.conditionId ps)))
      by (apply nodup_In, in_map, Hp).
    destruct (nodup string_dec (map Position.conditionId ps));
      [contradiction | simpl; lia]. }
  split; [apply (tally_biggest ps (mkTally 0 0 0 0))|].
  intros ->. split; reflexivity.
Qed.

End Stats.

(** ** The rows of the list *)

Section Rows.
Context {printer : NumberToString}.
Local Open Scope string_scope.

(** X19.  The row of an alert the classifier built never shows an empty
    name: it shows the trader name when the trade had a non-empty name or
    pseudonym, the name first, and otherwise the shortened wallet
    address. *)
Theorem displayName_never_empty (trade : RawTrade) (minValue : float)
  (a : WhaleAlert) :
  tradeToWhaleAlert trade minValue = Some a ->
  displayName a <> "" /\
  (forall n, Trade.name trade = Some n -> n <> "" -> displayName a = n) /\
  (Alert.traderName a = None ->
   displayName a = formatAddress (Trade.proxyWallet trade)).
Proof.
  intros Ha.
  destruct (tradeToWhaleAlert_whale minValue trade a Ha) as (_ & _ & _ & _ & Hn).
  assert (Ht : Alert.trader a = Trade.proxyWallet trade /\
               Alert.traderName a
               = or_null (Trade.name trade) (Trade.pseudonym trade)).
  { unfold tradeToWhaleAlert in Ha.
    destruct (_ <? _)%float; [discriminate|]. injection Ha as <-. now split. }
  destruct Ht as [Ht Hname]. unfold displayName. rewrite Ht.
  split; [|split].
  - destruct (Alert.traderName a) as [n|]; simpl.
    + destruct (String.eqb_spec n ""); [congruence | assumption].
    + intros E.
      pose proof (formatAddress_length (Trade.proxyWallet trade)) as L.
      rewrite E in L. simpl in L. lia.
  - intros n En Hne. rewrite Hname, En. unfold or_null.
    destruct (String.eqb_spec n ""); [contradiction|]. simpl.
    destruct (String.eqb_spec n ""); [contradiction | reflexivity].
  - intros ->. reflexivity.
Qed.

End Rows.

(** * More worked examples *)

Section MoreExamples.
Existing Instance Sample.printer.
Local Open Scope string_scope.

Lemma stored_alerts_are_whales_witness : whale 1000 Sample.bigAlert.
Proof.
  assert (E : tradeToWhaleAlert Sample.big 1000 = Some Sample.bigAlert)
    by (vm_compute; reflexivity).
  exact (proj1 (stored_alerts_are_whales 1000) Sample.big Sample.bigAlert E).
Defined.

Lemma oldestTimestamp_least_witness :
  let query := {| data := Some Sample.refreshedData; error := None |} in
  oldestTimestamp (returnedAlerts query) = Some 1700000000%Z /\
  forall a, In a (returnedAlerts query) -> (1700000000 <= Alert.timestamp a)%Z.
Proof.
  intros query.
  assert (Q : snd (queryFn 1000 (Resolved [Sample.big; Sample.unhashed]) 17
                           whaleStore)
              = Resolved Sample.refreshedData) by (vm_compute; reflexivity).
  assert (E : oldestTimestamp (returnedAlerts query) = Some 1700000000%Z)
    by (vm_compute; reflexivity).
  split; [exact E|].
  exact (proj2 (proj2 (proj2 (proj2 (oldestTimestamp_least
                  1000 [Sample.big; Sample.unhashed] 17 whaleStore query)
                  Sample.refreshedData eq_refl Q)) 1700000000%Z E)).
Defined.

Lemma loadMore_swallows_fetch_error_witness :
  loadMore 1000 false (fun _ _ => Rejected "Network Error")
           Sample.refreshedStore
  = mkRun Sample.refreshedStore 0 [(500, 500)%Z] false.
Proof.
  exact (proj1 (loadMore_swallows_fetch_error
                  1000 (fun _ _ => Rejected "Network Error")
                  Sample.refreshedStore "Network Error" eq_refl)).
Defined.

Lemma pagination_guard_released_witness :
  let h := fst (exec 1000 [ClickLoadMore; FetchSettled 0 (Resolved [])] mount) in
  isLoadingMore h = false /\
  snd (step 1000 (fst (step 1000 h Render)) ClickLoadMore) = [Fetch 500 500].
Proof.
  exact (pagination_guard_released
           1000 [ClickLoadMore; FetchSettled 0 (Resolved [])] eq_refl).
Defined.

Lemma manual_refresh_toasts_witness :
  snd (refreshCycle ManualRefresh (Resolved Sample.refreshedData) Sample.idle)
  = [mkToast "Found 2 new whale trades!" success;
     mkToast "2 new whales detected!" success].
Proof.
  exact (proj1 (manual_refresh_toasts Sample.refreshedData Sample.idle)).
Defined.

Lemma auto_refresh_toasts_witness :
  snd (refreshCycle Timer (Resolved Sample.refreshedData) Sample.idle)
  = [mkToast "2 new whales detected!" success].
Proof.
  refine (proj1 (proj2 (auto_refresh_toasts Timer Sample.refreshedData
                          Sample.idle _)) eq_refl eq_refl _);
    discriminate.
Defined.

Lemma failed_auto_refresh_silent_witness :
  refreshCycle WindowFocus (Rejected "Network Error") Sample.idle
  = (setQuery {| data := None; error := Some "Network Error" |} Sample.idle, []).
Proof.
  refine (failed_auto_refresh_silent WindowFocus "Network Error" Sample.idle
            _ eq_refl).
  discriminate.
Defined.

Lemma formatAddress_shape_witness :
  formatAddress "0x1234567890abcdef1234567890abcdef12345678" = "0x1234...5678" /\
  formatAddress "0xab" = "0xab...0xab".
Proof.
  split.
  - exact (proj1 (proj2 (formatAddress_shape
                           "0x1234567890abcdef1234567890abcdef12345678"))
             "0x1234" "567890abcdef1234567890abcdef1234" "5678"
             eq_refl eq_refl eq_refl).
  - refine (proj2 (proj2 (formatAddress_shape "0xab")) _). simpl. lia.
Defined.

Lemma formatTimeAgoShort_rounds_down_witness :
  formatTimeAgoShort 1700000100500 1700000098000 = "now".
Proof.
  refine (proj1 (formatTimeAgoShort_rounds_down 1700000100500 1700000098000) _).
  vm_compute. reflexivity.
Defined.

Lemma theme_persists_witness :
  let s := toggle (useTheme (Some "blue") false) in
  (theme s = "dark" \/ theme s = "light") /\
  theme (toggle (toggle s)) = theme s.
Proof.
  refine (proj2 (proj2 (proj2 (theme_persists (Some "blue") false 1))) _).
  lia.
Defined.

Lemma stats_counts_witness :
  let s := calculateStatsFromClosedPositions "0xa1" [] None None in
  winRate s = 0%float /\ winningTrades s = 0.
Proof.
  refine (proj2 (proj2 (proj2 (proj2 (proj2 (proj2 (proj2
            (stats_counts "0xa1" [] None None))))))) eq_refl).
Defined.

Lemma displayName_never_empty_witness :
  displayName Sample.bigAlert = "0xa1...0xa1" /\
  displayName Sample.unhashedAlert = "whale".
Proof.
  assert (E : tradeToWhaleAlert Sample.big 1000 = Some Sample.bigAlert)
    by (vm_compute; reflexivity).
  split.
  - exact (proj2 (proj2 (displayName_never_empty Sample.big 1000
                           Sample.bigAlert E)) eq_refl).
  - reflexivity.
Defined.

Lemma separated_single_flight_witness :
  let h := fst (exec 1000 [ClickLoadMore; Render] mount) in
  calls h = [AwaitFetch 500] /\
  step 1000 (fst (step 1000 h Render)) ClickLoadMore
  = (fst (step 1000 h Render), [Returns 0]).
Proof.
  split; [reflexivity|].
  refine (proj2 (proj2 (proj2
            (separated_single_flight 1000 [ClickLoadMore; Render] eq_refl)) _)).
  discriminate.
Defined.

Lemma separated_oldestOffset_monotone_witness :
  let events := [ClickLoadMore; FetchSettled 0 (Resolved [Sample.small])] in
  let later := [InvalidateSettled 0; Render; ClickLoadMore;
                FetchSettled 0 (Resolved [Sample.small])] in
  (oldestOffset (store (fst (exec 1000 events mount)))
   <= oldestOffset (store (fst (exec 1000 (events ++ later) mount))))%Z /\
  oldestOffset (store (fst (exec 1000 (events ++ later) mount))) = 1000%Z.
Proof.
  split; [|vm_compute; reflexivity].
  exact (proj1 (separated_oldestOffset_monotone
                  1000 [ClickLoadMore; FetchSettled 0 (Resolved [Sample.small])]
                  [InvalidateSettled 0; Render; ClickLoadMore;
                   FetchSettled 0 (Resolved [Sample.small])] eq_refl)).
Defined.

End MoreExamples.
